(** * huumn/assets: fingerprinted asset bundles

    A shallow embedding of [assets.go] and of the parts of the Go standard
    library and of the file system it calls, followed by the properties of
    the compile / lookup / render protocol.

    Conventions.
    - A Go [string] and a Go [[]byte] are both finite sequences of bytes; one
      Rocq type, [string] (a list of 8-bit [ascii]), stands for both, so the
      conversions [string(b)] and [[]byte(s)] are the identity.
    - A Go [error] is [option err]; [None] is [nil].
    - A Go function returning [(T, error)] returns a pair here.
    - Functions that touch the disk take the file system as an argument and,
      when they change it, return the new one. *)

From Stdlib Require Import ZArith Ascii Lia Bool.
From Stdlib Require String.
From stdpp Require Import gmap strings list fin_maps sorting.

(** ** Bytes and strings *)

Definition byte_val (c : ascii) : Z := Z.of_N (N_of_ascii c).
Definition byte_of (z : Z) : ascii := ascii_of_N (Z.to_N (z mod 256)).

Fixpoint bytes_of_string (s : string) : list Z :=
  match s with
  | EmptyString => []
  | String c s' => byte_val c :: bytes_of_string s'
  end.

Fixpoint string_of_bytes (l : list Z) : string :=
  match l with
  | [] => EmptyString
  | z :: l' => String (byte_of z) (string_of_bytes l')
  end.

(** The double quote, written by its code so that templates can be spelled
    out piece by piece. *)
Definition dq : string := String "034"%char EmptyString.

(** Line feed. *)
Definition lf : string := String "010"%char EmptyString.

(** ** crypto/md5 (RFC 1321) on 32-bit words held in [Z] *)

Module md5.
Local Open Scope Z_scope.

Definition u32 (x : Z) : Z := x mod 2 ^ 32.
Definition not32 (x : Z) : Z := Z.lxor x 0xffffffff.
Definition rotl (x n : Z) : Z :=
  Z.lor (u32 (Z.shiftl x n)) (Z.shiftr x (32 - n)).

Definition shifts : list Z :=
  [ 7; 12; 17; 22; 7; 12; 17; 22; 7; 12; 17; 22; 7; 12; 17; 22;
    5; 9; 14; 20; 5; 9; 14; 20; 5; 9; 14; 20; 5; 9; 14; 20;
    4; 11; 16; 23; 4; 11; 16; 23; 4; 11; 16; 23; 4; 11; 16; 23;
    6; 10; 15; 21; 6; 10; 15; 21; 6; 10; 15; 21; 6; 10; 15; 21 ].

(** [K i = floor (2^32 * |sin (i + 1)|)]. *)
Definition K : list Z :=
  [ 0xd76aa478; 0xe8c7b756; 0x242070db; 0xc1bdceee;
    0xf57c0faf; 0x4787c62a; 0xa8304613; 0xfd469501;
    0x698098d8; 0x8b44f7af; 0xffff5bb1; 0x895cd7be;
    0x6b901122; 0xfd987193; 0xa679438e; 0x49b40821;
    0xf61e2562; 0xc040b340; 0x265e5a51; 0xe9b6c7aa;
    0xd62f105d; 0x02441453; 0xd8a1e681; 0xe7d3fbc8;
    0x21e1cde6; 0xc33707d6; 0xf4d50d87; 0x455a14ed;
    0xa9e3e905; 0xfcefa3f8; 0x676f02d9; 0x8d2a4c8a;
    0xfffa3942; 0x8771f681; 0x6d9d6122; 0xfde5380c;
    0xa4beea44; 0x4bdecfa9; 0xf6bb4b60; 0xbebfbc70;
    0x289b7ec6; 0xeaa127fa; 0xd4ef3085; 0x04881d05;
    0xd9d4d039; 0xe6db99e5; 0x1fa27cf8; 0xc4ac5665;
    0xf4292244; 0x432aff97; 0xab9423a7; 0xfc93a039;
    0x655b59c3; 0x8f0ccc92; 0xffeff47d; 0x85845dd1;
    0x6fa87e4f; 0xfe2ce6e0; 0xa3014314; 0x4e0811a1;
    0xf7537e82; 0xbd3af235; 0x2ad7d2bb; 0xeb86d391 ].

(** The four chaining words. *)
Record state := State { sA : Z; sB : Z; sC : Z; sD : Z }.

Definition init : state :=
  State 0x67452301 0xefcdab89 0x98badcfe 0x10325476.

(** Little-endian encoding of [x] on [n] bytes. *)
Fixpoint le_bytes (n : nat) (x : Z) : list Z :=
  match n with
  | O => []
  | S n' => x mod 256 :: le_bytes n' (x / 256)
  end.

(** Little-endian decoding of a group of bytes. *)
Fixpoint le_word (l : list Z) : Z :=
  match l with
  | [] => 0
  | b :: l' => b + 256 * le_word l'
  end.

(** The message, one [0x80] byte, zeros up to 56 modulo 64, and the length
    in bits on 64 bits. *)
Definition pad (msg : list Z) : list Z :=
  let len := Z.of_nat (length msg) in
  msg ++ [0x80] ++ replicate (Z.to_nat ((55 - len) mod 64)) 0
      ++ le_bytes 8 ((len * 8) mod 2 ^ 64).

(** [groups k n l]: the first [n] consecutive groups of [k] elements. *)
Fixpoint groups (k n : nat) (l : list Z) : list (list Z) :=
  match n with
  | O => []
  | S n' => take k l :: groups k n' (drop k l)
  end.

Definition words (block : list Z) : list Z :=
  le_word <$> groups 4 16 block.

(** One of the 64 operations of a block. *)
Definition step (M : list Z) (st : state) (i : nat) : state :=
  let '(State A B C D) := st in
  let '(F, g) :=
    if (i <? 16)%nat then
      (Z.lor (Z.land B C) (Z.land (not32 B) D), i)
    else if (i <? 32)%nat then
      (Z.lor (Z.land D B) (Z.land (not32 D) C), ((5 * i + 1) mod 16)%nat)
    else if (i <? 48)%nat then
      (Z.lxor (Z.lxor B C) D, ((3 * i + 5) mod 16)%nat)
    else
      (Z.lxor C (Z.lor B (not32 D)), ((7 * i) mod 16)%nat) in
  let F' := u32 (F + A + nth i K 0 + nth g M 0) in
  State D (u32 (B + rotl F' (nth i shifts 0))) B C.

Definition block (st : state) (blk : list Z) : state :=
  let M := words blk in
  let '(State A B C D) := foldl (step M) st (seq 0 64) in
  State (u32 (sA st + A)) (u32 (sB st + B))
        (u32 (sC st + C)) (u32 (sD st + D)).

(** [md5.Sum]: the 16 bytes of the digest. *)
Definition Sum (data : string) : string :=
  let p := pad (bytes_of_string data) in
  let st := foldl block init (groups 64 (length p / 64) p) in
  string_of_bytes
    (le_bytes 4 (sA st) ++ le_bytes 4 (sB st)
     ++ le_bytes 4 (sC st) ++ le_bytes 4 (sD st)).
End md5.

(** ** encoding/hex *)

Module hex.
Definition hextable : string := "0123456789abcdef".

Definition digit (n : nat) : ascii :=
  match String.get n hextable with
  | Some c => c
  | None => "0"%char
  end.

(** [hex.EncodeToString]: two lowercase digits per byte, high nibble
    first. *)
Fixpoint EncodeToString (src : string) : string :=
  match src with
  | EmptyString => EmptyString
  | String v src' =>
      String (digit (nat_of_ascii v / 16))
        (String (digit (nat_of_ascii v mod 16)) (EncodeToString src'))
  end.
End hex.

(** ** assets.go: content hash *)

Definition hash (bytes : string) : string :=
  hex.EncodeToString (md5.Sum bytes).

(** ** Errors *)

Inductive errno := ENOENT | EISDIR | ENOTDIR | ENOTEMPTY.

(** The error values this program can see: [filepath.ErrBadPattern], the
    [*os.PathError] of a failed system call, and the values made by
    [fmt.Errorf]. *)
Inductive err :=
  | ErrBadPattern
  | PathError (op path : string) (e : errno)
  | errorString (msg : string).

Abbreviation error := (option err) (only parsing).

(** ** strings *)

Module strings.
Fixpoint ContainsByte (s : string) (c : ascii) : bool :=
  match s with
  | EmptyString => false
  | String a s' => Ascii.eqb a c || ContainsByte s' c
  end.

(** [strings.ContainsAny]: some byte of [chars] occurs in [s] (the sets used
    by this program are ASCII). *)
Fixpoint ContainsAny (s chars : string) : bool :=
  match s with
  | EmptyString => false
  | String a s' => ContainsByte chars a || ContainsAny s' chars
  end.

(** [strings.HasSuffix]:
    [len(s) >= len(suffix) && s[len(s)-len(suffix):] == suffix]. *)
Definition HasSuffix (s suffix : string) : bool :=
  (String.length suffix <=? String.length s)
  && String.eqb
       (String.substring (String.length s - String.length suffix)
          (String.length suffix) s)
       suffix.

(** [strings.Join]. *)
Fixpoint Join (elems : list string) (sep : string) : string :=
  match elems with
  | [] => ""
  | [e] => e
  | e :: rest => e +:+ sep +:+ Join rest sep
  end.
End strings.

(** ** fmt *)

Module fmt.
(** [fmt.Sprintf] for the formats of this program: the only verb is [%s],
    each taking the next operand as it is; every other byte of the format
    is copied. *)
Fixpoint Sprintf (format : string) (a : list string) : string :=
  match format with
  | String "%" (String "s" rest) =>
      match a with
      | x :: a' => x +:+ Sprintf rest a'
      | [] => "%!s(MISSING)" +:+ Sprintf rest []
      end
  | String c rest => String c (Sprintf rest a)
  | EmptyString => EmptyString
  end.

Definition Errorf (format : string) (a : list string) : err :=
  errorString (Sprintf format a).
End fmt.

(** ** unicode/utf8 *)

Module utf8.
Local Open Scope Z_scope.

Definition RuneError : Z := 0xFFFD.

Definition continuation (lo hi : Z) (c : ascii) : bool :=
  (lo <=? byte_val c) && (byte_val c <=? hi).

(** [utf8.DecodeRuneInString]: the first rune of [s] and its width in
    bytes; [(RuneError, 1)] on an invalid encoding, [(RuneError, 0)] on
    the empty string. *)
Definition DecodeRuneInString (s : string) : Z * nat :=
  match s with
  | EmptyString => (RuneError, 0%nat)
  | String c0 s' =>
    let b0 := byte_val c0 in
    if b0 <? 0x80 then (b0, 1%nat)
    else if (b0 <? 0xC2) || (0xF4 <? b0) then (RuneError, 1%nat)
    else
      let sz := if b0 <? 0xE0 then 2 else if b0 <? 0xF0 then 3 else 4 in
      let lo := if b0 =? 0xE0 then 0xA0 else if b0 =? 0xF0 then 0x90
                else 0x80 in
      let hi := if b0 =? 0xED then 0x9F else if b0 =? 0xF4 then 0x8F
                else 0xBF in
      if (Z.of_nat (String.length s) <? sz) then (RuneError, 1%nat)
      else
        match s' with
        | String c1 s'' =>
          if negb (continuation lo hi c1) then (RuneError, 1%nat)
          else if sz =? 2 then
            (Z.land b0 0x1F * 64 + Z.land (byte_val c1) 0x3F, 2%nat)
          else
            match s'' with
            | String c2 s''' =>
              if negb (continuation 0x80 0xBF c2) then (RuneError, 1%nat)
              else if sz =? 3 then
                (Z.land b0 0x0F * 4096 + Z.land (byte_val c1) 0x3F * 64
                 + Z.land (byte_val c2) 0x3F, 3%nat)
              else
                match s''' with
                | String c3 _ =>
                  if negb (continuation 0x80 0xBF c3) then
                    (RuneError, 1%nat)
                  else
                    (Z.land b0 0x07 * 262144
                     + Z.land (byte_val c1) 0x3F * 4096
                     + Z.land (byte_val c2) 0x3F * 64
                     + Z.land (byte_val c3) 0x3F, 4%nat)
                | EmptyString => (RuneError, 1%nat)
                end
            | EmptyString => (RuneError, 1%nat)
            end
        | EmptyString => (RuneError, 1%nat)
        end
  end.
End utf8.

(** [s[n:]] *)
Fixpoint string_drop (n : nat) (s : string) : string :=
  match n, s with
  | O, _ => s
  | S n', String _ s' => string_drop n' s'
  | S _, EmptyString => EmptyString
  end.

Definition is_empty (s : string) : bool :=
  match s with EmptyString => true | _ => false end.

(** ** path/filepath (Unix) *)

Module filepath.

Definition Separator : ascii := "/"%char.

Definition IsPathSeparator (c : ascii) : bool := Ascii.eqb c Separator.

(** The path elements of [s]: the pieces between separators, empty ones
    included. *)
Fixpoint elements (s : string) : list string :=
  match s with
  | EmptyString => [EmptyString]
  | String c s' =>
      if IsPathSeparator c then EmptyString :: elements s'
      else match elements s' with
           | e :: es => String c e :: es
           | [] => [String c EmptyString]
           end
  end.

(** What [Clean] does with one path element, given the elements kept so far
    (last one first): empty and [.] elements are dropped, [..] removes the
    last kept element when there is one to remove, is dropped at the root,
    and is kept at the front of a relative path. *)
Definition clean_step (rooted : bool) (kept : list string) (e : string)
  : list string :=
  if String.eqb e "" || String.eqb e "." then kept
  else if String.eqb e ".." then
    match kept with
    | top :: kept' => if String.eqb top ".." then e :: kept else kept'
    | [] => if rooted then [] else [e]
    end
  else e :: kept.

Definition rooted (path : string) : bool :=
  match path with
  | String c _ => IsPathSeparator c
  | EmptyString => false
  end.

(** [filepath.Clean], element by element; the library does the same work
    byte by byte on a buffer. *)
Definition Clean (path : string) : string :=
  if is_empty path then "."
  else
    let kept := foldl (clean_step (rooted path)) [] (elements path) in
    let body := strings.Join (reverse kept) "/" in
    if rooted path then "/" +:+ body
    else if is_empty body then "."
    else body.

(** [filepath.Join]: empty leading elements are skipped, the rest is joined
    with separators and cleaned. *)
Fixpoint Join (elem : list string) : string :=
  match elem with
  | [] => ""
  | e :: rest =>
      if is_empty e then Join rest else Clean (strings.Join elem "/")
  end.

(** [filepath.Split]: the path up to and including its last separator, and
    what follows it. *)
Fixpoint Split (path : string) : string * string :=
  match path with
  | EmptyString => (EmptyString, EmptyString)
  | String c s =>
      let '(dir, file) := Split s in
      if negb (is_empty dir) then (String c dir, file)
      else if IsPathSeparator c then (String c EmptyString, file)
      else (EmptyString, String c file)
  end.

(** The magic bytes of a pattern: star, question mark, opening bracket and
    backslash (code 92). *)
Definition magicChars : string :=
  String "*" (String "?" (String "[" (String "092" EmptyString))).

Definition hasMeta (path : string) : bool :=
  strings.ContainsAny path magicChars.

Definition cleanGlobPath (path : string) : string :=
  if is_empty path then "."
  else if String.eqb path "/" then path
  else String.substring 0 (String.length path - 1) path.

(** *** Match *)

(** The leading stars of a pattern: whether there is one, and the pattern
    after them. *)
Fixpoint skip_stars (pattern : string) : bool * string :=
  match pattern with
  | String c p =>
      if Ascii.eqb c "*" then (true, snd (skip_stars p)) else (false, pattern)
  | EmptyString => (false, pattern)
  end.

(** The scanning loop of [scanChunk]: the chunk runs up to the first [*]
    outside a character class; a backslash (code 92) protects the byte after
    it. *)
Fixpoint scan (inrange : bool) (pattern : string) : string * string :=
  match pattern with
  | EmptyString => (EmptyString, EmptyString)
  | String c p =>
      if Ascii.eqb c "092" then
        match p with
        | EmptyString => (pattern, EmptyString)
        | String c1 p' =>
            let '(chunk, rest) := scan inrange p' in
            (String c (String c1 chunk), rest)
        end
      else if Ascii.eqb c "*" && negb inrange then (EmptyString, pattern)
      else
        let inrange :=
          if Ascii.eqb c "[" then true
          else if Ascii.eqb c "]" then false
          else inrange in
        let '(chunk, rest) := scan inrange p in
        (String c chunk, rest)
  end.

Definition scanChunk (pattern : string) : bool * string * string :=
  let '(star, p) := skip_stars pattern in
  let '(chunk, rest) := scan false p in
  (star, chunk, rest).

(** [getEsc]: a possibly escaped character of a character class and the rest
    of the chunk; [None] is [ErrBadPattern]. *)
Definition getEsc (chunk : string) : option (Z * string) :=
  match chunk with
  | EmptyString => None
  | String c chunk' =>
      if Ascii.eqb c "-" || Ascii.eqb c "]" then None
      else
        let chunk1 := if Ascii.eqb c "092" then chunk' else chunk in
        if is_empty chunk1 then None
        else
          let '(r, n) := utf8.DecodeRuneInString chunk1 in
          let nchunk := string_drop n chunk1 in
          if (r =? utf8.RuneError)%Z && (n =? 1)%nat then None
          else if is_empty nchunk then None
          else Some (r, nchunk)
  end.

(** The loop over the ranges of a character class, entered after [[] and an
    optional [^]: whether [r] is in one of them, and the chunk after the
    closing bracket; [None] is [ErrBadPattern]. Each turn consumes at least
    one byte of the chunk, which [fuel] bounds. *)
Fixpoint class_loop (fuel : nat) (r : Z) (chunk : string) (matched : bool)
    (nrange : nat) : option (bool * string) :=
  match fuel with
  | O => None
  | S fuel' =>
      let ranges :=
        match getEsc chunk with
        | None => None
        | Some (lo, chunk1) =>
            match chunk1 with
            | String c chunk2 =>
                if Ascii.eqb c "-" then
                  match getEsc chunk2 with
                  | None => None
                  | Some (hi, chunk3) =>
                      class_loop fuel' r chunk3
                        (matched || ((lo <=? r)%Z && (r <=? hi)%Z))
                        (S nrange)
                  end
                else
                  class_loop fuel' r chunk1
                    (matched || ((lo <=? r)%Z && (r <=? lo)%Z)) (S nrange)
            | EmptyString => None
            end
        end in
      match chunk with
      | String c chunk' =>
          if Ascii.eqb c "]" && (0 <? nrange)%nat then Some (matched, chunk')
          else ranges
      | EmptyString => ranges
      end
  end.

(** The loop of [matchChunk]. Once [failed] is set the name is no longer
    read, and the rest of the chunk is only checked for syntax. Each turn
    consumes at least one byte of the chunk, which [fuel] bounds. *)
Fixpoint matchChunk_loop (fuel : nat) (failed : bool) (chunk s : string)
  : string * bool * error :=
  match chunk with
  | EmptyString =>
      if failed then (EmptyString, false, None) else (s, true, None)
  | String c chunk' =>
      match fuel with
      | O => (EmptyString, false, Some ErrBadPattern)
      | S fuel' =>
          let failed := failed || is_empty s in
          let literal (c : ascii) (chunk' : string) :=
            if failed then matchChunk_loop fuel' failed chunk' s
            else
              match s with
              | String c0 s' =>
                  matchChunk_loop fuel' (negb (Ascii.eqb c c0)) chunk' s'
              | EmptyString => matchChunk_loop fuel' true chunk' s
              end in
          if Ascii.eqb c "[" then
            let '(r, s1) :=
              if failed then (0%Z, s)
              else
                let '(r, n) := utf8.DecodeRuneInString s in
                (r, string_drop n s) in
            let '(negated, chunk1) :=
              match chunk' with
              | String c1 t => if Ascii.eqb c1 "^" then (true, t)
                               else (false, chunk')
              | EmptyString => (false, chunk')
              end in
            match class_loop (S (String.length chunk1)) r chunk1 false 0 with
            | None => (EmptyString, false, Some ErrBadPattern)
            | Some (matched, chunk2) =>
                matchChunk_loop fuel'
                  (if Bool.eqb matched negated then true else failed)
                  chunk2 s1
            end
          else if Ascii.eqb c "?" then
            if failed then matchChunk_loop fuel' failed chunk' s
            else
              match s with
              | String c0 _ =>
                  let '(_, n) := utf8.DecodeRuneInString s in
                  matchChunk_loop fuel' (IsPathSeparator c0) chunk'
                    (string_drop n s)
              | EmptyString => matchChunk_loop fuel' true chunk' s
              end
          else if Ascii.eqb c "092" then
            match chunk' with
            | EmptyString => (EmptyString, false, Some ErrBadPattern)
            | String c1 chunk'' => literal c1 chunk''
            end
          else literal c chunk'
      end
  end.

(** [matchChunk]: whether [chunk] matches the beginning of [s], and then the
    remainder of [s]. *)
Definition matchChunk (chunk s : string) : string * bool * error :=
  matchChunk_loop (String.length chunk) false chunk s.

Inductive star_result :=
  | Found (t : string)
  | NotFound
  | Failed (e : err).

(** The loop of [Match] that looks for a match of [chunk] after skipping
    [i+1] bytes of the name, none of them a separator. *)
Fixpoint star_loop (chunk rest name : string) : star_result :=
  match name with
  | EmptyString => NotFound
  | String c name' =>
      if IsPathSeparator c then NotFound
      else
        let '(t, ok, e) := matchChunk chunk name' in
        if ok then
          if is_empty rest && negb (is_empty t) then
            star_loop chunk rest name'
          else Found t
        else
          match e with
          | Some e => Failed e
          | None => star_loop chunk rest name'
          end
  end.

(** Before returning false, [Match] checks the syntax of the rest of the
    pattern. *)
Fixpoint check_rest (fuel : nat) (pattern : string) : error :=
  match fuel with
  | O => None
  | S fuel' =>
      if is_empty pattern then None
      else
        let '(_, chunk, rest) := scanChunk pattern in
        match matchChunk chunk "" with
        | (_, _, Some e) => Some e
        | _ => check_rest fuel' rest
        end
  end.

(** The main loop of [Match]; every turn shortens the pattern, which [fuel]
    bounds. *)
Fixpoint Match_loop (fuel : nat) (pattern name : string) : bool * error :=
  if is_empty pattern then (is_empty name, None)
  else
    match fuel with
    | O => (false, Some ErrBadPattern)
    | S fuel' =>
        let '(star, chunk, rest) := scanChunk pattern in
        if star && is_empty chunk then
          (negb (strings.ContainsByte name Separator), None)
        else
          let '(t, ok, e) := matchChunk chunk name in
          if ok && (is_empty t || negb (is_empty rest)) then
            Match_loop fuel' rest t
          else
            match e with
            | Some e => (false, Some e)
            | None =>
                match
                  (if star then star_loop chunk rest name else NotFound)
                with
                | Found t => Match_loop fuel' rest t
                | Failed e => (false, Some e)
                | NotFound => (false, check_rest (String.length rest) rest)
                end
            end
    end.

(** [filepath.Match]. *)
Definition Match (pattern name : string) : bool * error :=
  Match_loop (String.length pattern) pattern name.

End filepath.

(** ** The file system

    The disk is a finite map from path strings to entries. A path names the
    entry stored under exactly that string: the model does not identify
    different spellings of one path, and has no permissions, links or
    devices. Directories are entries of their own; the working directory is
    the entry [.] and the root the entry [/]. *)

Inductive node :=
  | File (data : string)
  | Dir.

Abbreviation FS := (gmap string node) (only parsing).

Module os.

(** The directory a path lies in. *)
Definition parent (name : string) : string :=
  filepath.cleanGlobPath (fst (filepath.Split name)).

(** The last element of a path. *)
Definition base (name : string) : string := snd (filepath.Split name).

(** Names a directory never lists. *)
Definition special (n : string) : bool :=
  is_empty n || String.eqb n "." || String.eqb n "..".

(** [k] is the path of an entry of directory [dir]: it is spelled the way
    [filepath.Join] spells the entry named [base k] of [dir]. *)
Definition is_entry (dir k : string) : bool :=
  negb (special (base k)) && String.eqb (filepath.Join [dir; base k]) k.

Definition paths (fs : FS) : list string := (map_to_list fs).*1.

(** [Readdirnames(-1)] on the open directory, followed by [sort.Strings]. *)
Definition Readdirnames (fs : FS) (dir : string) : list string :=
  merge_sort String.le (base <$> filter (λ k, is_entry dir k) (paths fs)).

(** Whether [os.Lstat] succeeds. *)
Definition Lstat (fs : FS) (name : string) : bool :=
  bool_decide (is_Some (fs !! name)).

(** Whether [os.Stat] succeeds and reports a directory. *)
Definition IsDir (fs : FS) (name : string) : bool :=
  match fs !! name with
  | Some Dir => true
  | _ => false
  end.

Definition has_entries (fs : FS) (dir : string) : bool :=
  bool_decide (Exists (λ k, k ≠ dir ∧ is_entry dir k) (paths fs)).

(** [os.Remove]: removes a file or an empty directory. *)
Definition Remove (fs : FS) (name : string) : FS * error :=
  match fs !! name with
  | None => (fs, Some (PathError "remove" name ENOENT))
  | Some (File _) => (delete name fs, None)
  | Some Dir =>
      if has_entries fs name then
        (fs, Some (PathError "remove" name ENOTEMPTY))
      else (delete name fs, None)
  end.

End os.

Module ioutil.

(** [ioutil.ReadFile]. *)
Definition ReadFile (fs : FS) (filename : string) : string * error :=
  match fs !! filename with
  | Some (File data) => (data, None)
  | Some Dir => ("", Some (PathError "read" filename EISDIR))
  | None => ("", Some (PathError "open" filename ENOENT))
  end.

(** [ioutil.WriteFile]: creates the file or truncates it; the directory it
    lies in must exist. The permission bits are not modelled. *)
Definition WriteFile (fs : FS) (filename : string) (data : string) (perm : Z)
  : FS * error :=
  match fs !! filename with
  | Some Dir => (fs, Some (PathError "open" filename EISDIR))
  | _ =>
      match fs !! os.parent filename with
      | Some Dir => (<[filename := File data]> fs, None)
      | Some (File _) => (fs, Some (PathError "open" filename ENOTDIR))
      | None => (fs, Some (PathError "open" filename ENOENT))
      end
  end.

End ioutil.

(** ** filepath.Glob *)

Module filepath_glob.
Import filepath.

(** The loop of [glob] over the sorted names of a directory. *)
Fixpoint glob_names (dir pattern : string) (names matches : list string)
  : list string * error :=
  match names with
  | [] => (matches, None)
  | n :: names' =>
      match Match pattern n with
      | (_, Some e) => (matches, Some e)
      | (true, None) =>
          glob_names dir pattern names' (matches ++ [Join [dir; n]])
      | (false, None) => glob_names dir pattern names' matches
      end
  end.

(** [glob]: the entries of [dir] whose name matches [pattern], appended to
    [matches]; an unreadable [dir] adds nothing. *)
Definition glob (fs : FS) (dir pattern : string) (matches : list string)
  : list string * error :=
  if os.IsDir fs dir then
    glob_names dir pattern (os.Readdirnames fs dir) matches
  else (matches, None).

(** The loop of [globWithLimit] over the directories that matched. *)
Fixpoint glob_dirs (fs : FS) (file : string) (dirs matches : list string)
  : list string * error :=
  match dirs with
  | [] => (matches, None)
  | d :: dirs' =>
      match glob fs d file matches with
      | (matches', Some e) => (matches', Some e)
      | (matches', None) => glob_dirs fs file dirs' matches'
      end
  end.

Definition pathSeparatorsLimit : nat := 100 * 100.

(** [globWithLimit pattern depth], with [left = pathSeparatorsLimit - depth]. *)
Fixpoint globWithLimit (left : nat) (fs : FS) (pattern : string)
  : list string * error :=
  match left with
  | O => ([], Some ErrBadPattern)
  | S left' =>
      match Match pattern "" with
      | (_, Some e) => ([], Some e)
      | (_, None) =>
          if negb (hasMeta pattern) then
            if os.Lstat fs pattern then ([pattern], None) else ([], None)
          else
            let '(dir, file) := Split pattern in
            let dir := cleanGlobPath dir in
            if negb (hasMeta dir) then glob fs dir file []
            else if String.eqb dir pattern then ([], Some ErrBadPattern)
            else
              match globWithLimit left' fs dir with
              | (_, Some e) => ([], Some e)
              | (m, None) => glob_dirs fs file m []
              end
      end
  end.

(** [filepath.Glob]. *)
Definition Glob (fs : FS) (pattern : string) : list string * error :=
  globWithLimit pathSeparatorsLimit fs pattern.

End filepath_glob.

(** ** assets.go *)

Import filepath_glob.

Definition cssTagTemplate : string :=
  "<link href=" +:+ dq +:+ "%s" +:+ dq +:+ " rel=" +:+ dq +:+ "stylesheet"
  +:+ dq +:+ " type=" +:+ dq +:+ "text/css" +:+ dq +:+ " />".

Definition jsTagTemplate : string :=
  "<script src=" +:+ dq +:+ "%s" +:+ dq +:+ " type=" +:+ dq
  +:+ "text/javascript" +:+ dq +:+ " ></script>".

Definition cssInlineTemplate : string := "<style>%s</style>".

Definition jsInlineTemplate : string := "<script>%s</script>".

(** [combine] reads the files in order and appends each, followed by two
    line feeds, to the buffer; it stops at the first read that fails. The
    buffer is returned with the error value. *)
Fixpoint combine (fs : FS) (writer : string) (paths : list string)
  : string * error :=
  match paths with
  | [] => (writer, None)
  | path :: paths' =>
      match ioutil.ReadFile fs path with
      | (_, Some e) => (writer, Some e)
      | (bytes, None) => combine fs (writer +:+ bytes +:+ lf +:+ lf) paths'
      end
  end.

Definition filePrefix (compiledName : string) : string :=
  fmt.Sprintf "__%s-" [compiledName].

Definition findFile (fs : FS) (path compiledName ext : string) (abs : bool)
  : string * error :=
  let glob := filepath.Join [path; filePrefix compiledName +:+ "*" +:+ ext] in
  match Glob fs glob with
  | (_, Some e) => ("", Some e)
  | (files, None) =>
      if (1 <? length files)%nat then
        ("", Some (fmt.Errorf "More than one file found at %s with name %s"
                     [path; compiledName]))
      else if (length files <? 1)%nat then
        ("", Some (fmt.Errorf "No files found at %s with name %s"
                     [path; compiledName]))
      else
        let f := default "" (head files) in
        if abs then (filepath.Join ["/"; f], None) else (f, None)
  end.

(** The loop of [removeGlob]: it stops at the first removal that fails. *)
Fixpoint remove_all (fs : FS) (files : list string) : FS * error :=
  match files with
  | [] => (fs, None)
  | f :: files' =>
      match os.Remove fs f with
      | (fs', Some e) => (fs', Some e)
      | (fs', None) => remove_all fs' files'
      end
  end.

Definition removeGlob (fs : FS) (outDir compiledName ext : string)
  : FS * error :=
  let glob :=
    filepath.Join [outDir; filePrefix compiledName +:+ "*" +:+ ext] in
  match Glob fs glob with
  | (_, Some e) => (fs, Some e)
  | (files, None) => remove_all fs files
  end.

(** The mode [0644] of the files written. *)
Definition perm0644 : Z := 420.

Definition outPath (outDir compiledName buf ext : string) : string :=
  filepath.Join [outDir; filePrefix compiledName +:+ hash buf +:+ ext].

Definition compile (fs : FS) (outDir compiledName ext : string)
    (paths : list string) : FS * error :=
  (* concat all files together *)
  match combine fs "" paths with
  | (_, Some e) => (fs, Some e)
  | (writer, None) =>
      (* delete any other asset with the same compiledName *)
      match removeGlob fs outDir compiledName ext with
      | (fs1, Some e) => (fs1, Some e)
      | (fs1, None) =>
          let min := writer in
          (* determine the path with md5 *)
          let dst := outPath outDir compiledName min ext in
          (* write out the file *)
          match ioutil.WriteFile fs1 dst min perm0644 with
          | (fs2, Some e) => (fs2, Some e)
          | (fs2, None) => (fs2, None)
          end
      end
  end.

Definition CSSCompile (fs : FS) (outDir compiledName : string)
    (paths : list string) : FS * error :=
  compile fs outDir compiledName ".min.css" paths.

Definition JSCompile (fs : FS) (outDir compiledName : string)
    (paths : list string) : FS * error :=
  compile fs outDir compiledName ".min.js" paths.

(** for any images or favicons that we want to set a long expiry on *)
Definition ImgCompile (fs : FS) (outDir compiledName ext path : string)
  : FS * error :=
  compile fs outDir compiledName ext [path].

(** [template.HTML] is a string type. *)
Abbreviation HTML := string (only parsing).

Definition inline (fs : FS) (path compiledName ext : string) : HTML * error :=
  match findFile fs path compiledName ext false with
  | (_, Some e) => ("", Some e)
  | (file, None) =>
      match ioutil.ReadFile fs file with
      | (_, Some e) => ("", Some e)
      | (bytes, None) =>
          if strings.HasSuffix ext "css" then
            (fmt.Sprintf cssInlineTemplate [bytes], None)
          else if strings.HasSuffix ext "js" then
            (fmt.Sprintf jsInlineTemplate [bytes], None)
          else
            ("", Some (fmt.Errorf "No inline template for ext %s" [ext]))
      end
  end.

Definition CSSInline (fs : FS) (path compiledName : string) : HTML * error :=
  inline fs path compiledName ".min.css".

Definition JSInline (fs : FS) (path compiledName : string) : HTML * error :=
  inline fs path compiledName ".min.js".

Definition tag (fs : FS) (path compiledName ext : string) : HTML * error :=
  match findFile fs path compiledName ext true with
  | (_, Some e) => ("", Some e)
  | (file, None) =>
      if strings.HasSuffix ext "css" then
        (fmt.Sprintf cssTagTemplate [file], None)
      else if strings.HasSuffix ext "js" then
        (fmt.Sprintf jsTagTemplate [file], None)
      else ("", Some (fmt.Errorf "No tag template for ext %s" [ext]))
  end.

Definition CSSTag (fs : FS) (path compiledName : string) : HTML * error :=
  tag fs path compiledName ".min.css".

Definition JSTag (fs : FS) (path compiledName : string) : HTML * error :=
  tag fs path compiledName ".min.js".

Definition ImgPath (fs : FS) (path compiledName ext : string)
  : string * error :=
  findFile fs path compiledName ext true.

(** The functions a template can call take a directory and a logical name,
    and [imgPath] an extension as well. *)
Inductive helper :=
  | Helper2 (f : gmap string node → string → string → string * option err)
  | Helper3
      (f : gmap string node → string → string → string → string * option err).

(** The [FuncMap] handed to [text/template]: a map from helper names to
    functions. *)
Definition TemplateFunctions : gmap string helper :=
  list_to_map
    [ ("cssTag", Helper2 CSSTag);
      ("cssInline", Helper2 CSSInline);
      ("jsTag", Helper2 JSTag);
      ("jsInline", Helper2 JSInline);
      ("imgPath", Helper3 ImgPath) ].

(** ** Specification vocabulary *)

(** Each content followed by two line feeds, in order. *)
Fixpoint bundle (contents : list string) : string :=
  match contents with
  | [] => ""
  | data :: rest => data +:+ lf +:+ lf +:+ bundle rest
  end.

(** [contents] are the contents of the files [paths], in order. *)
Definition reads (fs : gmap string node) (paths contents : list string)
  : Prop :=
  Forall2 (λ p data, ioutil.ReadFile fs p = (data, None)) paths contents.

(** The file system after the entries [files] are deleted. *)
Definition without (fs : gmap string node) (files : list string)
  : gmap string node :=
  foldl (λ m f, delete f m) fs files.

(** [s] has none of the magic bytes of a pattern. *)
Definition nometa (s : string) : Prop := filepath.hasMeta s = false.

(** [s] has no byte [c]. *)
Definition lacks (c : ascii) (s : string) : Prop :=
  strings.ContainsByte s c = false.

(** [s] has no path separator. *)
Definition nosep (s : string) : Prop := lacks filepath.Separator s.

(** [e] can be the name of a directory entry: it is not empty, [.] or
    [..]. *)
Definition real (e : string) : Prop := os.special e = false.

(** [d] is empty or ends with a separator: what [filepath.Split] returns as
    the directory part. *)
Definition dirlike (d : string) : Prop := d = "" ∨ ∃ d0, d = d0 +:+ "/".

(** Each element followed by a separator. *)
Fixpoint dirs (l : list string) : string :=
  match l with
  | [] => ""
  | e :: l' => e +:+ "/" +:+ dirs l'
  end.

(** The elements [filepath.Clean] keeps of [d]. *)
Definition kept (d : string) : list string :=
  foldl (filepath.clean_step (filepath.rooted d)) [] (filepath.elements d).

(** The shape of the elements [filepath.Clean] has kept, last one first:
    every element is free of separators and is not empty or [.]; a [..]
    stands only on other [..], and only in a path that is not rooted. *)
Fixpoint normal (r : bool) (K : list string) : Prop :=
  match K with
  | [] => True
  | e :: K' =>
      nosep e ∧ e ≠ "" ∧ e ≠ "."
      ∧ (e = ".." → r = false ∧ Forall (λ x, x = "..") K')
      ∧ normal r K'
  end.

(** What [filepath.Clean] makes of the directory part [d] of a path [d ++ e]
    whose last element [e] is real. *)
Definition cleaned_dir (d : string) : string :=
  (if filepath.rooted d then "/" else "") +:+ dirs (reverse (kept d)).

(** The directory part of the paths [filepath.Join [outDir; "__<name>-..."]]:
    [outDir] and the elements of the prefix before its last one, cleaned. *)
Definition glob_dir (outDir name : string) : string :=
  cleaned_dir
    ((if is_empty outDir then "" else outDir +:+ "/")
     +:+ (filepath.Split ("__" +:+ name)).1).

(** The last element of the prefix [__<name>-]. *)
Definition glob_stem (name : string) : string :=
  (filepath.Split ("__" +:+ name)).2 +:+ "-".

(** The entries of directory [dir] whose name matches [pattern], as paths,
    in the order of their names. *)
Definition matching (fs : gmap string node) (dir pattern : string)
  : list string :=
  if os.IsDir fs dir then
    (λ n, filepath.Join [dir; n])
      <$> filter (λ n, (filepath.Match pattern n).1 = true)
            (os.Readdirnames fs dir)
  else [].

(** ** Sample disks *)

Definition css_a : string := "body{color:red}".
Definition css_b : string := "p{color:blue}".

(** A working directory with two style sheets, an image and an empty output
    directory. *)
Definition fs_src : FS :=
  list_to_map
    [ (".", Dir); ("out", Dir); ("a.css", File css_a); ("b.css", File css_b);
      ("logo.png", File "PNG") ].

(** The same after an earlier build left two bundles behind. *)
Definition fs_stale : FS :=
  <["out/__app-0123.min.css" := File "old"]>
    (<["out/__app-vendor-4567.min.css" := File "older"]> fs_src).

(** An output directory in which the second of three stale bundles is a
    directory that is not empty. *)
Definition fs_blocked : gmap string node :=
  <["out/__app-1.min.css" := File "one"]>
    (<["out/__app-2.min.css" := Dir]>
       (<["out/__app-2.min.css/keep" := File "kept"]>
          (<["out/__app-3.min.css" := File "three"]> fs_src))).

(** Every byte of [s] is a lowercase hex digit. *)
Definition is_hex (s : string) : Prop :=
  ∀ c, strings.ContainsByte s c = true →
       strings.ContainsByte hex.hextable c = true.

(** * Properties *)

(** ** Strings *)

Lemma append_cons c s t : String c s +:+ t = String c (s +:+ t).
Proof. reflexivity. Qed.

Lemma append_nil_l s : "" +:+ s = s.
Proof. reflexivity. Qed.

Lemma append_nil_r s : s +:+ "" = s.
Proof. induction s as [|c s IH]; [done|]. by rewrite append_cons, IH. Qed.

Lemma append_assoc s t u : (s +:+ t) +:+ u = s +:+ t +:+ u.
Proof.
  induction s as [|c s IH]; [done|]. by rewrite !append_cons, IH.
Qed.

Lemma length_append s t :
  String.length (s +:+ t) = String.length s + String.length t.
Proof.
  induction s as [|c s IH]; [done|]. rewrite append_cons. simpl. by rewrite IH.
Qed.

Lemma append_inv_tail s1 s2 t : s1 +:+ t = s2 +:+ t → s1 = s2.
Proof.
  revert s2. induction s1 as [|c s1 IH]; intros [|c2 s2] H.
  - done.
  - apply (f_equal String.length) in H.
    rewrite append_nil_l, length_append in H. simpl in H. lia.
  - apply (f_equal String.length) in H.
    rewrite append_nil_l, length_append in H. simpl in H. lia.
  - rewrite !append_cons in H. injection H as -> H. f_equal. by apply IH.
Qed.

Lemma is_empty_true s : is_empty s = true → s = "".
Proof. by destruct s. Qed.

Lemma is_empty_append s t : is_empty (s +:+ t) = is_empty s && is_empty t.
Proof. by destruct s. Qed.

(** ** Formats *)

Lemma filePrefix_eq compiledName :
  filePrefix compiledName = "__" +:+ compiledName +:+ "-".
Proof. reflexivity. Qed.

Lemma Errorf_none_found path compiledName :
  fmt.Errorf "No files found at %s with name %s" [path; compiledName]
  = errorString ("No files found at " +:+ path +:+ " with name "
                 +:+ compiledName).
Proof.
  unfold fmt.Errorf. cbn [fmt.Sprintf]. by rewrite append_nil_r.
Qed.

Lemma Errorf_many_found path compiledName :
  fmt.Errorf "More than one file found at %s with name %s"
    [path; compiledName]
  = errorString ("More than one file found at " +:+ path +:+ " with name "
                 +:+ compiledName).
Proof.
  unfold fmt.Errorf. cbn [fmt.Sprintf]. by rewrite append_nil_r.
Qed.

Lemma Sprintf_cssTag file :
  fmt.Sprintf cssTagTemplate [file]
  = "<link href=" +:+ dq +:+ file +:+ dq +:+ " rel=" +:+ dq +:+ "stylesheet"
    +:+ dq +:+ " type=" +:+ dq +:+ "text/css" +:+ dq +:+ " />".
Proof. reflexivity. Qed.

Lemma Sprintf_jsTag file :
  fmt.Sprintf jsTagTemplate [file]
  = "<script src=" +:+ dq +:+ file +:+ dq +:+ " type=" +:+ dq
    +:+ "text/javascript" +:+ dq +:+ " ></script>".
Proof. reflexivity. Qed.

Lemma Sprintf_cssInline bytes :
  fmt.Sprintf cssInlineTemplate [bytes] = "<style>" +:+ bytes +:+ "</style>".
Proof. reflexivity. Qed.

Lemma Sprintf_jsInline bytes :
  fmt.Sprintf jsInlineTemplate [bytes] = "<script>" +:+ bytes +:+ "</script>".
Proof. reflexivity. Qed.

(** ** Lookup *)

(** The three outcomes of [findFile], by the number of matches. *)
Lemma findFile_zero (fs : gmap string node) (path compiledName ext : string)
    (abs : bool) :
  Glob fs (filepath.Join [path; filePrefix compiledName +:+ "*" +:+ ext])
  = ([], None) →
  findFile fs path compiledName ext abs
  = ("", Some (errorString ("No files found at " +:+ path +:+ " with name "
                            +:+ compiledName))).
Proof.
  intros HG. unfold findFile. rewrite HG. simpl.
  by rewrite Errorf_none_found.
Qed.

Lemma findFile_one (fs : gmap string node) (path compiledName ext : string)
    (abs : bool) (f : string) :
  Glob fs (filepath.Join [path; filePrefix compiledName +:+ "*" +:+ ext])
  = ([f], None) →
  findFile fs path compiledName ext abs
  = (if abs then filepath.Join ["/"; f] else f, None).
Proof. intros HG. unfold findFile. rewrite HG. simpl. by destruct abs. Qed.

Lemma findFile_several (fs : gmap string node)
    (path compiledName ext : string) (abs : bool) (f g : string)
    (l : list string) :
  Glob fs (filepath.Join [path; filePrefix compiledName +:+ "*" +:+ ext])
  = (f :: g :: l, None) →
  findFile fs path compiledName ext abs
  = ("", Some (errorString ("More than one file found at " +:+ path
                            +:+ " with name " +:+ compiledName))).
Proof.
  intros HG. unfold findFile. rewrite HG. simpl.
  by rewrite Errorf_many_found.
Qed.

(** C4. With [files] the matches of the glob [__<name>-*<ext>] in the
    directory, [findFile] returns the error "No files found" when there is
    none, the error "More than one file found" when there are two or more,
    and the single match otherwise: joined to the root [/] when [abs] is set,
    as it is when not. *)
Theorem findFile_by_match_count (fs : gmap string node)
    (path compiledName ext : string) (abs : bool) (files : list string) :
  Glob fs (filepath.Join [path; filePrefix compiledName +:+ "*" +:+ ext])
  = (files, None) →
  findFile fs path compiledName ext abs =
  match files with
  | [] =>
      ("", Some (errorString ("No files found at " +:+ path +:+ " with name "
                              +:+ compiledName)))
  | [f] => (if abs then filepath.Join ["/"; f] else f, None)
  | _ :: _ :: _ =>
      ("", Some (errorString ("More than one file found at " +:+ path
                              +:+ " with name " +:+ compiledName)))
  end.
Proof.
  intros HG. destruct files as [|f [|g l]].
  - by apply findFile_zero.
  - by apply findFile_one.
  - by eapply findFile_several.
Qed.

Lemma findFile_by_match_count_witness :
  Glob fs_stale
    (filepath.Join ["out"; filePrefix "app-vendor" +:+ "*" +:+ ".min.css"])
  = (["out/__app-vendor-4567.min.css"], None)
  ∧ findFile fs_stale "out" "app-vendor" ".min.css" true
    = ("/out/__app-vendor-4567.min.css", None).
Proof.
  split; [vm_compute; reflexivity|].
  apply (findFile_by_match_count fs_stale "out" "app-vendor" ".min.css" true
           ["out/__app-vendor-4567.min.css"]).
  vm_compute. reflexivity.
Defined.

Example findFile_none :
  findFile fs_src "out" "app" ".min.css" true
  = ("", Some (errorString "No files found at out with name app")).
Proof. vm_compute. reflexivity. Qed.

Example findFile_many :
  findFile fs_stale "out" "app" ".min.css" false
  = ("", Some (errorString "More than one file found at out with name app")).
Proof. vm_compute. reflexivity. Qed.

(** ** Rendering *)



(** C10. Whenever [tag], [inline], [CSSTag], [JSTag], [CSSInline] or
    [JSInline] returns an error, the HTML returned with it is the empty
    string. *)
Theorem render_error_empty_html (fs : gmap string node)
    (path compiledName ext : string) (r : string * option err) :
  r ∈ [ tag fs path compiledName ext; inline fs path compiledName ext;
        CSSTag fs path compiledName; JSTag fs path compiledName;
        CSSInline fs path compiledName; JSInline fs path compiledName ] →
  r.2 ≠ None → r.1 = "".
Proof.
  assert (Htag : ∀ e, (tag fs path compiledName e).2 ≠ None →
                      (tag fs path compiledName e).1 = "").
  { intros e. unfold tag.
    destruct (findFile fs path compiledName e true) as [file [?|]]; [done|].
    destruct (strings.HasSuffix e "css"); [done|].
    by destruct (strings.HasSuffix e "js"). }
  assert (Hinl : ∀ e, (inline fs path compiledName e).2 ≠ None →
                      (inline fs path compiledName e).1 = "").
  { intros e. unfold inline.
    destruct (findFile fs path compiledName e false) as [file [?|]]; [done|].
    destruct (ioutil.ReadFile fs file) as [bytes [?|]]; [done|].
    destruct (strings.HasSuffix e "css"); [done|].
    by destruct (strings.HasSuffix e "js"). }
  intros Hr Herr.
  repeat (apply elem_of_cons in Hr as [->|Hr]);
    [apply Htag|apply Hinl|apply Htag|apply Htag|apply Hinl|apply Hinl|];
    [done..|].
  by apply elem_of_nil in Hr.
Qed.

Lemma render_error_empty_html_witness :
  (tag fs_src "out" "app" ".txt").2 ≠ None
  ∧ (tag fs_src "out" "app" ".txt").1 = "".
Proof.
  assert (H : (tag fs_src "out" "app" ".txt").2 ≠ None)
    by (vm_compute; discriminate).
  split; [exact H|].
  apply (render_error_empty_html fs_src "out" "app" ".txt"); [|exact H].
  apply list_elem_of_here.
Defined.




(** ** Reading the sources *)

Lemma combine_read_error (fs : gmap string node) (w : string)
    (pre : list string) (p : string) (post : list string) (e : err) :
  Forall (λ q, (ioutil.ReadFile fs q).2 = None) pre →
  (ioutil.ReadFile fs p).2 = Some e →
  (combine fs w (pre ++ p :: post)).2 = Some e.
Proof.
  intros Hpre Hp. revert w.
  induction Hpre as [|q pre Hq _ IH]; intros w; simpl.
  - destruct (ioutil.ReadFile fs p) as [b [e'|]]; simpl in *; congruence.
  - destruct (ioutil.ReadFile fs q) as [b [e'|]]; simpl in *; [done|].
    apply IH.
Qed.

Lemma first_unreadable (fs : gmap string node) (paths : list string) :
  Exists (λ p, (ioutil.ReadFile fs p).2 ≠ None) paths →
  ∃ pre p post e,
    paths = pre ++ p :: post
    ∧ Forall (λ q, (ioutil.ReadFile fs q).2 = None) pre
    ∧ (ioutil.ReadFile fs p).2 = Some e.
Proof.
  induction paths as [|q paths IH]; intros HE.
  - by apply Exists_nil in HE.
  - destruct ((ioutil.ReadFile fs q).2) as [e|] eqn:Hq.
    + by exists [], q, paths, e.
    + apply Exists_cons in HE as [HE|HE]; [done|].
      destruct (IH HE) as (pre & p & post & e & -> & Hpre & Hp).
      exists (q :: pre), p, post, e. split; [done|].
      split; [by constructor|done].
Qed.

(** C3. If some source path cannot be read, [compile] returns the read
    error of the first such path, and the file system it leaves is the one
    it was given: nothing has been deleted and nothing written. *)
Theorem compile_read_error (fs : gmap string node)
    (outDir compiledName ext : string) (paths : list string) :
  Exists (λ p, (ioutil.ReadFile fs p).2 ≠ None) paths →
  ∃ pre p post e,
    paths = pre ++ p :: post
    ∧ Forall (λ q, (ioutil.ReadFile fs q).2 = None) pre
    ∧ (ioutil.ReadFile fs p).2 = Some e
    ∧ compile fs outDir compiledName ext paths = (fs, Some e).
Proof.
  intros HE.
  destruct (first_unreadable fs paths HE)
    as (pre & p & post & e & -> & Hpre & Hp).
  exists pre, p, post, e. repeat split; [done..|].
  unfold compile.
  pose proof (combine_read_error fs "" pre p post e Hpre Hp) as Hc.
  destruct (combine fs "" (pre ++ p :: post)) as [w [e'|]]; simpl in Hc;
    congruence.
Qed.

Lemma compile_read_error_witness :
  ∃ e, compile fs_stale "out" "app" ".min.css" ["a.css"; "missing.css"]
       = (fs_stale, Some e).
Proof.
  assert (HE : Exists (λ p, (ioutil.ReadFile fs_stale p).2 ≠ None)
                 ["a.css"; "missing.css"]).
  { apply Exists_cons_tl, Exists_cons_hd. vm_compute. discriminate. }
  destruct (compile_read_error fs_stale "out" "app" ".min.css" _ HE)
    as (pre & p & post & e & _ & _ & _ & Hc).
  by exists e.
Defined.

(** ** The steps of [compile] *)

Lemma combine_ok (fs : gmap string node) (w : string) (paths : list string)
    (buf : string) :
  combine fs w paths = (buf, None) →
  ∃ contents, reads fs paths contents ∧ buf = w +:+ bundle contents.
Proof.
  revert w. induction paths as [|p paths IH]; intros w; simpl.
  - intros [= <-]. exists []. split; [constructor|]. by rewrite append_nil_r.
  - destruct (ioutil.ReadFile fs p) as [data [e|]] eqn:Hp; [done|].
    intros Hc. destruct (IH _ Hc) as (contents & Hr & ->).
    exists (data :: contents). split; [by constructor|].
    simpl. by rewrite !append_assoc.
Qed.

Lemma combine_reads (fs : gmap string node) (w : string)
    (paths contents : list string) :
  reads fs paths contents →
  combine fs w paths = (w +:+ bundle contents, None).
Proof.
  intros Hr. revert w. induction Hr as [|p data paths contents Hp _ IH];
    intros w; simpl.
  - by rewrite append_nil_r.
  - rewrite Hp, IH. by rewrite !append_assoc.
Qed.

Lemma lookup_without (fs : gmap string node) (files : list string)
    (k : string) :
  without fs files !! k = if decide (k ∈ files) then None else fs !! k.
Proof.
  unfold without. revert fs. induction files as [|f files IH]; intros fs.
  - done.
  - cbn [foldl]. rewrite IH, lookup_delete.
    destruct (decide (k ∈ files)) as [Hin|Hnin],
      (decide (k ∈ f :: files)) as [Hin'|Hnin'],
      (decide (f = k)) as [->|Hne]; try done.
    + exfalso. apply Hnin'. by apply list_elem_of_further.
    + exfalso. apply Hnin'. by apply list_elem_of_further.
    + exfalso. by apply elem_of_cons in Hin' as [?|?].
    + exfalso. apply Hnin'. apply list_elem_of_here.
Qed.

Lemma Remove_ok (fs fs' : gmap string node) (name : string) :
  os.Remove fs name = (fs', None) → fs' = delete name fs.
Proof.
  unfold os.Remove. destruct (fs !! name) as [[data|]|]; [congruence| |done].
  destruct (os.has_entries fs name); congruence.
Qed.

Lemma remove_all_ok (fs fs' : gmap string node) (files : list string) :
  remove_all fs files = (fs', None) → fs' = without fs files.
Proof.
  revert fs. induction files as [|f files IH]; intros fs; simpl.
  - by intros [= <-].
  - destruct (os.Remove fs f) as [fs1 [e|]] eqn:HR; [done|].
    apply Remove_ok in HR as ->. apply IH.
Qed.

Lemma removeGlob_ok (fs fs' : gmap string node)
    (outDir compiledName ext : string) :
  removeGlob fs outDir compiledName ext = (fs', None) →
  ∃ old,
    Glob fs
      (filepath.Join [outDir; filePrefix compiledName +:+ "*" +:+ ext])
    = (old, None)
    ∧ fs' = without fs old.
Proof.
  unfold removeGlob.
  destruct (Glob fs _) as [old [e|]]; [done|].
  intros HR. exists old. split; [done|]. by apply remove_all_ok.
Qed.

Lemma WriteFile_ok (fs fs' : gmap string node) (filename data : string)
    (perm : Z) :
  ioutil.WriteFile fs filename data perm = (fs', None) →
  fs' = <[filename := File data]> fs
  ∧ fs !! os.parent filename = Some Dir
  ∧ fs !! filename ≠ Some Dir.
Proof.
  unfold ioutil.WriteFile.
  destruct (fs !! filename) as [[d|]|] eqn:Hf; [|done|];
    destruct (fs !! os.parent filename) as [[d'|]|]; try done;
    intros [= <-]; done.
Qed.

(** What a successful [compile] has done: read the sources into [buf],
    deleted the matches [old] of the glob, and written [buf] under the
    fingerprinted name. *)
Lemma compile_ok (fs fs' : gmap string node)
    (outDir compiledName ext : string) (paths : list string) :
  compile fs outDir compiledName ext paths = (fs', None) →
  ∃ contents old,
    let buf := bundle contents in
    let dst := outPath outDir compiledName buf ext in
    reads fs paths contents
    ∧ Glob fs
        (filepath.Join [outDir; filePrefix compiledName +:+ "*" +:+ ext])
      = (old, None)
    ∧ without fs old !! os.parent dst = Some Dir
    ∧ without fs old !! dst ≠ Some Dir
    ∧ fs' = <[dst := File buf]> (without fs old).
Proof.
  unfold compile.
  destruct (combine fs "" paths) as [buf [e|]] eqn:Hc; [done|].
  destruct (removeGlob fs outDir compiledName ext) as [fs1 [e|]] eqn:Hr;
    [done|].
  destruct (ioutil.WriteFile fs1 _ buf perm0644) as [fs2 [e|]] eqn:Hw;
    [done|].
  intros [= <-].
  apply combine_ok in Hc as (contents & Hreads & ->).
  apply removeGlob_ok in Hr as (old & HG & ->).
  apply WriteFile_ok in Hw as (-> & Hpar & Hnd).
  rewrite append_nil_l in *. by exists contents, old.
Qed.

Lemma reads_inj (fs : gmap string node) (paths c1 c2 : list string) :
  reads fs paths c1 → reads fs paths c2 → c1 = c2.
Proof.
  intros H1. revert c2. induction H1 as [|p d paths c1 Hp _ IH];
    intros c2 H2; inversion H2 as [|p' d' paths' c2' Hp' H2']; subst.
  - done.
  - f_equal; [congruence|by apply IH].
Qed.

(** ** Content of the bundle *)

(** C6, as stated, fails: for the two sources [a.css] and [b.css] the buffer
    is not the contents with a separator between them only; the two line
    feeds also follow the last file. *)
Lemma separator_only_between_counterexample :
  reads fs_src ["a.css"; "b.css"] [css_a; css_b]
  ∧ combine fs_src "" ["a.css"; "b.css"]
    = (css_a +:+ lf +:+ lf +:+ css_b +:+ lf +:+ lf, None)
  ∧ combine fs_src "" ["a.css"; "b.css"]
    ≠ (strings.Join [css_a; css_b] (lf +:+ lf), None).
Proof.
  split; [|split].
  - repeat constructor.
  - vm_compute. reflexivity.
  - vm_compute. discriminate.
Qed.

(** The file a successful [compile] writes holds the bundle of the sources
    and is named by its hash. *)
Lemma compile_writes (fs fs' : gmap string node)
    (outDir compiledName ext : string) (paths contents : list string) :
  reads fs paths contents →
  compile fs outDir compiledName ext paths = (fs', None) →
  fs' !! outPath outDir compiledName (bundle contents) ext
  = Some (File (bundle contents)).
Proof.
  intros Hr Hc.
  apply compile_ok in Hc as (contents' & old & Hr' & _ & _ & _ & ->).
  rewrite (reads_inj _ _ _ _ Hr' Hr). apply lookup_insert_eq.
Qed.

(** C6, amended. The buffer that [compile] hashes and writes is, in input
    order, the content of each source followed by two line feeds; the two
    line feeds follow every file, the last one included. *)
Theorem compile_writes_bundle (fs fs' : gmap string node)
    (outDir compiledName ext : string) (paths contents : list string) :
  reads fs paths contents →
  compile fs outDir compiledName ext paths = (fs', None) →
  combine fs "" paths = (bundle contents, None)
  ∧ fs' !! outPath outDir compiledName (bundle contents) ext
    = Some (File (bundle contents)).
Proof.
  intros Hr Hc. split.
  - rewrite (combine_reads _ "" _ _ Hr). by rewrite append_nil_l.
  - by eapply compile_writes.
Qed.

Lemma compile_writes_bundle_witness :
  reads fs_src ["a.css"; "b.css"] [css_a; css_b]
  ∧ (compile fs_src "out" "app" ".min.css" ["a.css"; "b.css"]).2 = None
  ∧ (compile fs_src "out" "app" ".min.css" ["a.css"; "b.css"]).1
    !! outPath "out" "app" (bundle [css_a; css_b]) ".min.css"
    = Some (File (css_a +:+ lf +:+ lf +:+ css_b +:+ lf +:+ lf)).
Proof.
  assert (Hr : reads fs_src ["a.css"; "b.css"] [css_a; css_b])
    by repeat constructor.
  assert (Hc : compile fs_src "out" "app" ".min.css" ["a.css"; "b.css"]
               = ((compile fs_src "out" "app" ".min.css"
                     ["a.css"; "b.css"]).1, None))
    by (vm_compute; reflexivity).
  split; [exact Hr|]. split; [vm_compute; reflexivity|].
  exact (proj2 (compile_writes_bundle fs_src _ "out" "app" ".min.css"
                  ["a.css"; "b.css"] [css_a; css_b] Hr Hc)).
Defined.

(** C5, as stated, fails: the file [ImgCompile] writes for [logo.png] does
    not hold the bytes of the source; it holds them followed by two line
    feeds. *)
Lemma ImgCompile_counterexample :
  let r := ImgCompile fs_src "out" "logo" ".png" "logo.png" in
  let dst := "out/__logo-be82b954705846d07a1cb298b3eff3be.png" in
  ioutil.ReadFile fs_src "logo.png" = ("PNG", None)
  ∧ r.2 = None
  ∧ dst = outPath "out" "logo" ("PNG" +:+ lf +:+ lf) ".png"
  ∧ fs_src !! dst = None
  ∧ r.1 !! dst = Some (File ("PNG" +:+ lf +:+ lf))
  ∧ (∀ k, k ≠ dst → r.1 !! k = fs_src !! k)
  ∧ r.1 !! dst ≠ Some (File "PNG").
Proof.
  assert (Hr : ImgCompile fs_src "out" "logo" ".png" "logo.png"
               = (<["out/__logo-be82b954705846d07a1cb298b3eff3be.png"
                    := File ("PNG" +:+ lf +:+ lf)]> fs_src, None)).
  { vm_compute. reflexivity. }
  cbv zeta. rewrite Hr. cbn [fst snd].
  repeat split; try (vm_compute; reflexivity).
  - intros k Hk. by rewrite lookup_insert_ne.
  - rewrite lookup_insert_eq. vm_compute. discriminate.
Qed.

(** C5, amended. [ImgCompile] compiles exactly one source file; the file it
    writes holds the bytes of that source followed by two line feeds, and is
    named by the hash of that content. *)
Theorem ImgCompile_content (fs fs' : gmap string node)
    (outDir compiledName ext path data : string) :
  ioutil.ReadFile fs path = (data, None) →
  ImgCompile fs outDir compiledName ext path = (fs', None) →
  fs' !! outPath outDir compiledName (data +:+ lf +:+ lf) ext
  = Some (File (data +:+ lf +:+ lf)).
Proof.
  intros Hp Hc. unfold ImgCompile in Hc.
  assert (Hr : reads fs [path] [data]) by (by repeat constructor).
  pose proof (compile_writes _ _ _ _ _ _ _ Hr Hc) as Hw.
  simpl in Hw. by rewrite append_nil_r in Hw.
Qed.

Lemma ImgCompile_content_witness :
  ioutil.ReadFile fs_src "logo.png" = ("PNG", None)
  ∧ (ImgCompile fs_src "out" "logo" ".png" "logo.png").2 = None
  ∧ (ImgCompile fs_src "out" "logo" ".png" "logo.png").1
    !! outPath "out" "logo" ("PNG" +:+ lf +:+ lf) ".png"
    = Some (File ("PNG" +:+ lf +:+ lf)).
Proof.
  assert (Hp : ioutil.ReadFile fs_src "logo.png" = ("PNG", None))
    by reflexivity.
  assert (Hc : ImgCompile fs_src "out" "logo" ".png" "logo.png"
               = ((ImgCompile fs_src "out" "logo" ".png" "logo.png").1, None))
    by (vm_compute; reflexivity).
  split; [exact Hp|]. split; [vm_compute; reflexivity|].
  exact (ImgCompile_content fs_src _ "out" "logo" ".png" "logo.png" "PNG"
           Hp Hc).
Defined.

(** C2. Compiling [app] with [.min.css] from two sources that hold
    [body{color:red}] and [p{color:blue}] leaves, as its single output, the
    file [__app-<md5hex>.min.css] of the output directory, whose content is
    each source followed by two line feeds; every other entry of the disk is
    as before or has been deleted. The hex digest is spelled out. *)
Theorem compile_example (fs fs' : gmap string node)
    (outDir p1 p2 : string) :
  ioutil.ReadFile fs p1 = ("body{color:red}", None) →
  ioutil.ReadFile fs p2 = ("p{color:blue}", None) →
  CSSCompile fs outDir "app" [p1; p2] = (fs', None) →
  let content :=
    "body{color:red}" +:+ lf +:+ lf +:+ "p{color:blue}" +:+ lf +:+ lf in
  let dst :=
    filepath.Join [outDir; "__app-" +:+ hash content +:+ ".min.css"] in
  hash content = "09530647c625e660b8ede522ecf74902"
  ∧ fs' !! dst = Some (File content)
  ∧ ∀ k, k ≠ dst → fs' !! k = fs !! k ∨ fs' !! k = None.
Proof.
  intros H1 H2 Hc. cbv zeta. split; [vm_compute; reflexivity|].
  assert (Hr : reads fs [p1; p2] ["body{color:red}"; "p{color:blue}"])
    by (by repeat constructor).
  unfold CSSCompile in Hc.
  pose proof (compile_writes _ _ _ _ _ _ _ Hr Hc) as Hw.
  split; [exact Hw|].
  apply compile_ok in Hc as (contents & old & Hr' & _ & _ & _ & ->).
  rewrite (reads_inj _ _ _ _ Hr' Hr). intros k Hk.
  rewrite lookup_insert_ne by done. rewrite lookup_without.
  case_decide; auto.
Qed.

Lemma compile_example_witness :
  ioutil.ReadFile fs_stale "a.css" = ("body{color:red}", None)
  ∧ ioutil.ReadFile fs_stale "b.css" = ("p{color:blue}", None)
  ∧ (CSSCompile fs_stale "out" "app" ["a.css"; "b.css"]).2 = None
  ∧ (CSSCompile fs_stale "out" "app" ["a.css"; "b.css"]).1
    !! "out/__app-09530647c625e660b8ede522ecf74902.min.css"
    = Some (File ("body{color:red}" +:+ lf +:+ lf +:+ "p{color:blue}"
                  +:+ lf +:+ lf)).
Proof.
  assert (H1 : ioutil.ReadFile fs_stale "a.css" = ("body{color:red}", None))
    by reflexivity.
  assert (H2 : ioutil.ReadFile fs_stale "b.css" = ("p{color:blue}", None))
    by reflexivity.
  assert (Hc : CSSCompile fs_stale "out" "app" ["a.css"; "b.css"]
               = ((CSSCompile fs_stale "out" "app" ["a.css"; "b.css"]).1,
                  None))
    by (vm_compute; reflexivity).
  split; [exact H1|]. split; [exact H2|]. split; [vm_compute; reflexivity|].
  destruct (compile_example fs_stale _ "out" "a.css" "b.css" H1 H2 Hc)
    as (Hh & Hw & _).
  rewrite Hh in Hw. exact Hw.
Defined.

(** ** Bytes of a string *)

Lemma lacks_nil c : lacks c "".
Proof. reflexivity. Qed.

Lemma lacks_cons c a s :
  lacks c (String a s) ↔ Ascii.eqb a c = false ∧ lacks c s.
Proof. unfold lacks. simpl. apply orb_false_iff. Qed.

Lemma lacks_append c s t : lacks c (s +:+ t) ↔ lacks c s ∧ lacks c t.
Proof.
  induction s as [|a s IH].
  - rewrite append_nil_l. split; [by split|by intros [_ ?]].
  - rewrite append_cons, !lacks_cons, IH. tauto.
Qed.

Lemma nometa_nil : nometa "".
Proof. reflexivity. Qed.

Lemma nometa_cons a s :
  nometa (String a s)
  ↔ strings.ContainsByte filepath.magicChars a = false ∧ nometa s.
Proof. unfold nometa, filepath.hasMeta. simpl. apply orb_false_iff. Qed.

Lemma nometa_append s t : nometa (s +:+ t) ↔ nometa s ∧ nometa t.
Proof.
  induction s as [|a s IH].
  - rewrite append_nil_l. split; [by split|by intros [_ ?]].
  - rewrite append_cons, !nometa_cons, IH. tauto.
Qed.

(** A byte that is not magic is none of the four magic bytes. *)
Lemma not_magic a :
  strings.ContainsByte filepath.magicChars a = false →
  Ascii.eqb a "*" = false ∧ Ascii.eqb a "?" = false
  ∧ Ascii.eqb a "[" = false ∧ Ascii.eqb a "092" = false.
Proof.
  unfold filepath.magicChars. cbn. rewrite !orb_false_iff.
  rewrite (Ascii.eqb_sym a "*"), (Ascii.eqb_sym a "?"),
    (Ascii.eqb_sym a "["), (Ascii.eqb_sym a "092"). tauto.
Qed.

Lemma hasMeta_star s t : filepath.hasMeta (s +:+ "*" +:+ t) = true.
Proof.
  induction s as [|a s IH].
  - reflexivity.
  - rewrite append_cons. unfold filepath.hasMeta in *. simpl.
    rewrite IH. apply orb_true_r.
Qed.

(** ** Chunks of a pattern *)

Lemma scan_plain_star (pl rest : string) :
  nometa pl →
  filepath.scan false (pl +:+ "*" +:+ rest) = (pl, "*" +:+ rest).
Proof.
  induction pl as [|a pl IH]; intros Hm.
  - reflexivity.
  - apply nometa_cons in Hm as [Ha Hm].
    apply not_magic in Ha as (Hs & _ & Hb & He).
    rewrite append_cons. simpl. rewrite He, Hs, Hb. simpl.
    destruct (Ascii.eqb a "]"); by rewrite (IH Hm).
Qed.

Lemma scan_plain (s : string) :
  nometa s → filepath.scan false s = (s, "").
Proof.
  induction s as [|a s IH]; intros Hm.
  - reflexivity.
  - apply nometa_cons in Hm as [Ha Hm].
    apply not_magic in Ha as (Hs & _ & Hb & He).
    simpl. rewrite He, Hs, Hb. simpl.
    destruct (Ascii.eqb a "]"); by rewrite (IH Hm).
Qed.

Lemma skip_stars_plain (s : string) :
  nometa s → filepath.skip_stars s = (false, s).
Proof.
  destruct s as [|a s]; [done|]. intros Hm.
  apply nometa_cons in Hm as [Ha Hm].
  apply not_magic in Ha as (Hs & _). simpl. by rewrite Hs.
Qed.

Lemma scanChunk_prefix (pl rest : string) :
  nometa pl → pl ≠ "" →
  filepath.scanChunk (pl +:+ "*" +:+ rest) = (false, pl, "*" +:+ rest).
Proof.
  intros Hm Hne. unfold filepath.scanChunk.
  destruct pl as [|a pl]; [done|].
  pose proof Hm as Hm'. apply nometa_cons in Hm' as [Ha _].
  apply not_magic in Ha as (Hs & _).
  rewrite append_cons. cbn [filepath.skip_stars]. rewrite Hs.
  rewrite <- append_cons. by rewrite scan_plain_star.
Qed.

Lemma scanChunk_star (ext : string) :
  nometa ext → filepath.scanChunk ("*" +:+ ext) = (true, ext, "").
Proof.
  intros Hm. unfold filepath.scanChunk.
  change ("*" +:+ ext) with (String "*" ext). cbn [filepath.skip_stars].
  change (Ascii.eqb "*" "*") with true. cbv iota.
  rewrite (skip_stars_plain _ Hm). cbn [snd]. by rewrite scan_plain.
Qed.

(** One turn of [matchChunk] on a byte that is not magic. *)
Lemma matchChunk_loop_plain fuel failed a chunk s :
  strings.ContainsByte filepath.magicChars a = false →
  filepath.matchChunk_loop (S fuel) failed (String a chunk) s
  = if failed || is_empty s then
      filepath.matchChunk_loop fuel (failed || is_empty s) chunk s
    else
      match s with
      | String c0 s' =>
          filepath.matchChunk_loop fuel (negb (Ascii.eqb a c0)) chunk s'
      | EmptyString => filepath.matchChunk_loop fuel true chunk s
      end.
Proof.
  intros Ha. apply not_magic in Ha as (_ & Hq & Hb & He).
  cbn [filepath.matchChunk_loop]. by rewrite Hb, Hq, He.
Qed.

Lemma matchChunk_loop_noerr fuel failed chunk s :
  nometa chunk → String.length chunk ≤ fuel →
  (filepath.matchChunk_loop fuel failed chunk s).2 = None.
Proof.
  revert fuel failed s. induction chunk as [|a chunk IH];
    intros fuel failed s Hm Hf.
  - destruct fuel; simpl; by destruct failed.
  - apply nometa_cons in Hm as [Ha Hm].
    destruct fuel as [|fuel]; [simpl in Hf; lia|]. simpl in Hf.
    rewrite (matchChunk_loop_plain _ _ _ _ _ Ha).
    destruct (failed || is_empty s); [apply IH; [done|lia]|].
    destruct s; apply IH; (done || lia).
Qed.

Lemma matchChunk_loop_failed fuel chunk s :
  nometa chunk → String.length chunk ≤ fuel →
  filepath.matchChunk_loop fuel true chunk s = ("", false, None).
Proof.
  revert fuel s. induction chunk as [|a chunk IH]; intros fuel s Hm Hf.
  - by destruct fuel.
  - apply nometa_cons in Hm as [Ha Hm].
    destruct fuel as [|fuel]; [simpl in Hf; lia|]. simpl in Hf.
    rewrite (matchChunk_loop_plain _ _ _ _ _ Ha). simpl.
    apply IH; [done|lia].
Qed.

(** On a chunk without magic bytes, [matchChunk] succeeds exactly when the
    chunk is a prefix of the name, and then returns what follows it. *)
Lemma matchChunk_loop_prefix fuel chunk s :
  nometa chunk → String.length chunk ≤ fuel →
  filepath.matchChunk_loop fuel false chunk (chunk +:+ s) = (s, true, None).
Proof.
  revert fuel. induction chunk as [|a chunk IH]; intros fuel Hm Hf.
  - by destruct fuel.
  - apply nometa_cons in Hm as [Ha Hm].
    destruct fuel as [|fuel]; [simpl in Hf; lia|]. simpl in Hf.
    rewrite (matchChunk_loop_plain _ _ _ _ _ Ha), append_cons. simpl.
    rewrite Ascii.eqb_refl. simpl. apply IH; [done|lia].
Qed.

Lemma matchChunk_loop_sound fuel chunk s t e :
  nometa chunk → String.length chunk ≤ fuel →
  filepath.matchChunk_loop fuel false chunk s = (t, true, e) →
  s = chunk +:+ t.
Proof.
  revert fuel s. induction chunk as [|a chunk IH]; intros fuel s Hm Hf.
  - destruct fuel; simpl; by intros [= <- _].
  - apply nometa_cons in Hm as [Ha Hm].
    destruct fuel as [|fuel]; [simpl in Hf; lia|]. simpl in Hf.
    rewrite (matchChunk_loop_plain _ _ _ _ _ Ha). simpl.
    destruct s as [|c0 s]; simpl.
    + rewrite matchChunk_loop_failed by (done || lia). done.
    + destruct (Ascii.eqb a c0) eqn:Hac; simpl.
      * apply Ascii.eqb_eq in Hac as ->. intros H.
        rewrite append_cons. f_equal. apply (IH fuel); (done || lia).
      * rewrite matchChunk_loop_failed by (done || lia). done.
Qed.

Lemma matchChunk_prefix chunk s :
  nometa chunk → filepath.matchChunk chunk (chunk +:+ s) = (s, true, None).
Proof. intros. by apply matchChunk_loop_prefix. Qed.

Lemma matchChunk_noerr chunk s :
  nometa chunk → (filepath.matchChunk chunk s).2 = None.
Proof. intros. by apply matchChunk_loop_noerr. Qed.

Lemma matchChunk_sound chunk s t e :
  nometa chunk → filepath.matchChunk chunk s = (t, true, e) →
  s = chunk +:+ t.
Proof. intros. by eapply matchChunk_loop_sound. Qed.

(** ** Matching a name against [<prefix>*<suffix>] *)

Lemma star_loop_complete (ext mid : string) :
  nometa ext → nosep mid → mid ≠ "" →
  filepath.star_loop ext "" (mid +:+ ext) = filepath.Found "".
Proof.
  intros Hm. induction mid as [|c mid IH]; intros Hs Hne; [done|].
  apply lacks_cons in Hs as [Hc Hs].
  rewrite append_cons. cbn [filepath.star_loop].
  unfold filepath.IsPathSeparator. rewrite Hc.
  destruct mid as [|c' mid].
  - rewrite append_nil_l.
    rewrite <- (append_nil_r ext) at 2.
    by rewrite matchChunk_prefix.
  - pose proof (matchChunk_noerr ext (String c' mid +:+ ext) Hm) as Hn.
    destruct (filepath.matchChunk ext (String c' mid +:+ ext))
      as [[t ok] e]. simpl in Hn. subst e.
    destruct ok; [|by apply IH].
    destruct t as [|ct t]; [done|]. simpl. by apply IH.
Qed.

Lemma star_loop_sound (ext name t : string) :
  nometa ext →
  filepath.star_loop ext "" name = filepath.Found t →
  t = "" ∧ ∃ mid, name = mid +:+ ext ∧ nosep mid.
Proof.
  intros Hm. induction name as [|c name IH]; [done|].
  cbn [filepath.star_loop]. unfold filepath.IsPathSeparator.
  destruct (Ascii.eqb c filepath.Separator) eqn:Hc; [done|].
  assert (Hstep : ∀ mid, name = mid +:+ ext ∧ nosep mid →
            String c name = String c mid +:+ ext ∧ nosep (String c mid)).
  { intros mid [-> Hs]. split; [done|]. by apply lacks_cons. }
  destruct (filepath.matchChunk ext name) as [[t' ok] e] eqn:HM.
  destruct ok.
  - destruct t' as [|ct t']; simpl.
    + intros [= <-]. split; [done|].
      apply matchChunk_sound in HM; [|done]. rewrite append_nil_r in HM.
      exists (String c ""). subst name. split; [done|].
      apply lacks_cons. split; [done|apply lacks_nil].
    + intros H. destruct (IH H) as (-> & mid & Hmid).
      split; [done|]. exists (String c mid). by apply Hstep.
  - destruct e; [done|]. intros H. destruct (IH H) as (-> & mid & Hmid).
    split; [done|]. exists (String c mid). by apply Hstep.
Qed.

Lemma star_loop_noerr (ext rest name : string) (e : err) :
  nometa ext → filepath.star_loop ext rest name ≠ filepath.Failed e.
Proof.
  intros Hm. induction name as [|c name IH]; [done|].
  cbn [filepath.star_loop].
  destruct (filepath.IsPathSeparator c); [done|].
  pose proof (matchChunk_noerr ext name Hm) as Hn.
  destruct (filepath.matchChunk ext name) as [[t ok] e']. simpl in Hn.
  subst e'. destruct ok; [|done].
  by destruct (is_empty rest && negb (is_empty t)).
Qed.

Lemma check_rest_empty fuel : filepath.check_rest fuel "" = None.
Proof. by destruct fuel. Qed.

Lemma check_rest_star (ext : string) :
  nometa ext →
  filepath.check_rest (String.length ("*" +:+ ext)) ("*" +:+ ext) = None.
Proof.
  intros Hm. change ("*" +:+ ext) with (String "*" ext) at 1.
  cbn [String.length filepath.check_rest is_empty].
  change (is_empty ("*" +:+ ext)) with false. cbv iota.
  rewrite (scanChunk_star _ Hm).
  pose proof (matchChunk_noerr ext "" Hm) as Hn.
  destruct (filepath.matchChunk ext "") as [[t ok] e]. simpl in Hn. subst e.
  apply check_rest_empty.
Qed.

Lemma Match_loop_nil fuel name :
  filepath.Match_loop fuel "" name = (is_empty name, None).
Proof. by destruct fuel. Qed.

(** The second turn of [Match]: the pattern left is [*<ext>]. *)
Lemma Match_loop_star_complete fuel (ext mid : string) :
  nometa ext → nosep mid →
  filepath.Match_loop (S fuel) ("*" +:+ ext) (mid +:+ ext) = (true, None).
Proof.
  intros Hm Hs. cbn [filepath.Match_loop].
  change (is_empty ("*" +:+ ext)) with false. cbv iota.
  rewrite (scanChunk_star _ Hm). cbn [andb].
  destruct ext as [|a ext].
  { cbn [is_empty]. rewrite append_nil_r.
    unfold nosep, lacks in Hs. rewrite Hs. reflexivity. }
  cbn [is_empty]. cbv iota. set (x := String a ext) in *.
  destruct mid as [|c mid].
  - rewrite append_nil_l. rewrite <- (append_nil_r x) at 2.
    rewrite matchChunk_prefix by done. simpl. apply Match_loop_nil.
  - pose proof (matchChunk_noerr x (String c mid +:+ x) Hm) as Hn.
    destruct (filepath.matchChunk x (String c mid +:+ x)) as [[t ok] e].
    simpl in Hn. subst e.
    rewrite (star_loop_complete x (String c mid)) by done.
    destruct ok; simpl; [|apply Match_loop_nil].
    destruct t; simpl; apply Match_loop_nil.
Qed.

Lemma Match_loop_star_sound fuel (ext t : string) (e : option err) :
  nometa ext →
  filepath.Match_loop (S fuel) ("*" +:+ ext) t = (true, e) →
  ∃ mid, t = mid +:+ ext ∧ nosep mid.
Proof.
  intros Hm. cbn [filepath.Match_loop].
  change (is_empty ("*" +:+ ext)) with false. cbv iota.
  rewrite (scanChunk_star _ Hm). cbn [andb].
  destruct ext as [|a ext].
  { cbn [is_empty]. intros [= H _]. exists t.
    rewrite append_nil_r. split; [done|].
    unfold nosep, lacks. by destruct (strings.ContainsByte t _). }
  cbn [is_empty]. cbv iota. set (x := String a ext) in *.
  destruct (filepath.matchChunk x t) as [[t' ok] e'] eqn:HM.
  assert (Hstar : match filepath.star_loop x "" t with
                  | filepath.Found t0 => filepath.Match_loop fuel "" t0
                  | filepath.NotFound =>
                      (false, filepath.check_rest (String.length "") "")
                  | filepath.Failed e0 => (false, Some e0)
                  end = (true, e) → ∃ mid, t = mid +:+ x ∧ nosep mid).
  { destruct (filepath.star_loop x "" t) as [t0| |e0] eqn:HS; [|done..].
    intros _. destruct (star_loop_sound _ _ _ Hm HS) as (_ & mid & Hmid).
    by exists mid. }
  destruct ok; simpl.
  - destruct t' as [|ct t']; simpl.
    + intros _. apply matchChunk_sound in HM; [|done].
      rewrite append_nil_r in HM. exists "". split; [done|apply lacks_nil].
    + destruct e'; [done|]. apply Hstar.
  - destruct e'; [done|]. apply Hstar.
Qed.

Lemma Match_loop_star_noerr fuel (ext t : string) :
  nometa ext →
  (filepath.Match_loop (S fuel) ("*" +:+ ext) t).2 = None.
Proof.
  intros Hm. cbn [filepath.Match_loop].
  change (is_empty ("*" +:+ ext)) with false. cbv iota.
  rewrite (scanChunk_star _ Hm). cbn [andb].
  destruct (is_empty ext); [done|].
  pose proof (matchChunk_noerr ext t Hm) as Hn.
  destruct (filepath.matchChunk ext t) as [[t' ok] e']. simpl in Hn.
  subst e'.
  assert (Hstar : (match filepath.star_loop ext "" t with
                  | filepath.Found t0 => filepath.Match_loop fuel "" t0
                  | filepath.NotFound =>
                      (false, filepath.check_rest (String.length "") "")
                  | filepath.Failed e0 => (false, Some e0)
                  end).2 = None).
  { pose proof (star_loop_noerr ext "" t) as HS.
    destruct (filepath.star_loop ext "" t) as [t0| |e0].
    - by rewrite Match_loop_nil.
    - done.
    - by destruct (HS e0). }
  destruct ok; simpl; [|done].
  destruct (is_empty t'); simpl; [|done]. by rewrite Match_loop_nil.
Qed.

Section star_pattern.
Variables pl ext : string.
Hypothesis pl_plain : nometa pl.
Hypothesis pl_nonempty : pl ≠ "".
Hypothesis ext_plain : nometa ext.

Lemma Match_star_unfold (name : string) :
  filepath.Match (pl +:+ "*" +:+ ext) name
  = let '(t, ok, _) := filepath.matchChunk pl name in
    if ok then
      filepath.Match_loop (String.length pl + String.length ext)
        ("*" +:+ ext) t
    else (false, None).
Proof.
  unfold filepath.Match. rewrite length_append.
  change ("*" +:+ ext) with (String "*" ext) at 1. cbn [String.length].
  rewrite Nat.add_succ_r.
  cbn [filepath.Match_loop].
  assert (is_empty (pl +:+ "*" +:+ ext) = false) as ->
    by (by destruct pl).
  rewrite scanChunk_prefix by done. cbn [andb].
  pose proof (matchChunk_noerr pl name pl_plain) as Hn.
  destruct (filepath.matchChunk pl name) as [[t ok] e]. simpl in Hn.
  subst e. change (is_empty ("*" +:+ ext)) with false.
  rewrite orb_true_r, andb_true_r.
  destruct ok; [done|]. by rewrite check_rest_star.
Qed.

(** A name [<pl><mid><ext>] whose middle has no separator matches. *)
Lemma Match_star_complete (mid : string) :
  nosep mid →
  filepath.Match (pl +:+ "*" +:+ ext) (pl +:+ mid +:+ ext) = (true, None).
Proof.
  intros Hs. rewrite Match_star_unfold, matchChunk_prefix by done.
  destruct pl; [done|]. by apply Match_loop_star_complete.
Qed.

(** A name that matches has the form [<pl><mid><ext>]. *)
Lemma Match_star_sound (name : string) (e : option err) :
  filepath.Match (pl +:+ "*" +:+ ext) name = (true, e) →
  ∃ mid, name = pl +:+ mid +:+ ext ∧ nosep mid.
Proof.
  rewrite Match_star_unfold.
  destruct (filepath.matchChunk pl name) as [[t ok] e'] eqn:HM.
  destruct ok; [|done]. intros H.
  apply matchChunk_sound in HM as ->; [|done].
  destruct pl as [|a pl'] eqn:Hpl; [done|]. rewrite <- Hpl in *.
  replace (String.length pl) with (S (String.length pl')) in H
    by (by rewrite Hpl).
  apply Match_loop_star_sound in H as (mid & -> & Hs); [|done].
  by exists mid.
Qed.

(** Matching against such a pattern never reports a bad pattern. *)
Lemma Match_star_noerr (name : string) :
  (filepath.Match (pl +:+ "*" +:+ ext) name).2 = None.
Proof.
  rewrite Match_star_unfold.
  destruct (filepath.matchChunk pl name) as [[t ok] e'].
  destruct ok; [|done].
  destruct pl; [done|]. by apply Match_loop_star_noerr.
Qed.

End star_pattern.

(** ** Path elements *)

Lemma elements_nonempty s : filepath.elements s ≠ [].
Proof.
  destruct s as [|c s]; [done|]. simpl.
  destruct (filepath.IsPathSeparator c); [done|].
  by destruct (filepath.elements s).
Qed.

Lemma elements_nosep e : nosep e → filepath.elements e = [e].
Proof.
  induction e as [|c e IH]; [done|]. intros [Hc Hs]%lacks_cons.
  simpl. unfold filepath.IsPathSeparator. rewrite Hc. by rewrite IH.
Qed.

Lemma elements_app_sep s t :
  filepath.elements (s +:+ "/" +:+ t)
  = filepath.elements s ++ filepath.elements t.
Proof.
  induction s as [|c s IH]; [done|].
  rewrite append_cons. simpl.
  destruct (filepath.IsPathSeparator c); [by rewrite IH|].
  rewrite IH. pose proof (elements_nonempty s).
  by destruct (filepath.elements s).
Qed.

Lemma elements_dirlike d :
  dirlike d →
  ∃ L, filepath.elements d = L ++ [""]
       ∧ ∀ e, nosep e → filepath.elements (d +:+ e) = L ++ [e].
Proof.
  intros [->|[d0 ->]].
  - exists []. split; [done|]. intros e He.
    by rewrite append_nil_l, elements_nosep.
  - exists (filepath.elements d0). split.
    + rewrite <- (append_nil_r "/"). by rewrite elements_app_sep.
    + intros e He.
      by rewrite append_assoc, elements_app_sep, (elements_nosep e).
Qed.

Lemma elements_all_nosep s : Forall nosep (filepath.elements s).
Proof.
  induction s as [|c s IH]; [by repeat constructor|].
  simpl. destruct (filepath.IsPathSeparator c) eqn:Hc.
  - constructor; [apply lacks_nil|done].
  - destruct (filepath.elements s) as [|e es].
    + repeat constructor. apply lacks_cons. split; [done|apply lacks_nil].
    + inversion IH; subst. constructor; [|done]. by apply lacks_cons.
Qed.

Lemma elements_all_nometa s : nometa s → Forall nometa (filepath.elements s).
Proof.
  induction s as [|c s IH]; [by repeat constructor|].
  intros [Hc Hs]%nometa_cons. specialize (IH Hs).
  simpl. destruct (filepath.IsPathSeparator c).
  - constructor; [apply nometa_nil|done].
  - destruct (filepath.elements s) as [|e es].
    + repeat constructor. apply nometa_cons. split; [done|apply nometa_nil].
    + inversion IH; subst. constructor; [|done]. by apply nometa_cons.
Qed.

(** ** Joining elements *)

Lemma Join_cons2 e1 e2 l :
  strings.Join (e1 :: e2 :: l) "/" = e1 +:+ "/" +:+ strings.Join (e2 :: l) "/".
Proof. reflexivity. Qed.

Lemma Join_snoc l e : strings.Join (l ++ [e]) "/" = dirs l +:+ e.
Proof.
  induction l as [|x l IH]; [done|].
  simpl app. destruct (l ++ [e]) as [|y l'] eqn:Hl.
  { by destruct l. }
  rewrite Join_cons2, IH. simpl. by rewrite !append_assoc.
Qed.

Lemma dirs_snoc l e : dirs (l ++ [e]) = strings.Join (l ++ [e]) "/" +:+ "/".
Proof.
  rewrite Join_snoc. induction l as [|x l IH]; simpl.
  - by rewrite append_nil_r.
  - by rewrite IH, !append_assoc.
Qed.

Lemma elements_Join l :
  l ≠ [] → Forall nosep l → filepath.elements (strings.Join l "/") = l.
Proof.
  induction l as [|x l IH]; [done|]. intros _ Hl.
  inversion Hl as [|? ? Hx Hl']; subst.
  destruct l as [|y l]; [by apply elements_nosep|].
  rewrite Join_cons2, elements_app_sep, (elements_nosep x) by done.
  simpl. f_equal. by apply IH.
Qed.

Lemma nometa_dirs l : Forall nometa l → nometa (dirs l).
Proof.
  induction 1 as [|x l Hx _ IH]; [done|]. simpl.
  apply nometa_append. split; [done|]. by apply nometa_append.
Qed.

(** ** Cleaning a path *)

Lemma real_spec e : real e ↔ e ≠ "" ∧ e ≠ "." ∧ e ≠ "..".
Proof.
  unfold real, os.special. rewrite !orb_false_iff, !String.eqb_neq.
  split.
  - intros [[H1 H2] H3]. split; [by destruct e|done].
  - intros (H1 & H2 & H3). split; [split|]; [by destruct e|done..].
Qed.

Lemma clean_step_real r K e : real e → filepath.clean_step r K e = e :: K.
Proof.
  intros (H1 & H2 & H3)%real_spec. unfold filepath.clean_step.
  apply String.eqb_neq in H1, H2, H3. by rewrite H1, H2, H3.
Qed.

Lemma clean_step_empty r K : filepath.clean_step r K "" = K.
Proof. reflexivity. Qed.

Lemma normal_step r K e :
  normal r K → nosep e → normal r (filepath.clean_step r K e).
Proof.
  intros HK He. unfold filepath.clean_step.
  destruct (String.eqb_spec e "") as [->|H1]; [done|].
  destruct (String.eqb_spec e ".") as [->|H2]; [done|]. simpl.
  destruct (String.eqb_spec e "..") as [->|H3].
  - destruct K as [|top K].
    + destruct r; simpl; [done|]. repeat split; try done.
    + destruct HK as (Ht & Ht1 & Ht2 & Ht3 & HK).
      destruct (String.eqb_spec top "..") as [->|H4]; [|done].
      destruct (Ht3 eq_refl) as [-> Hall].
      simpl. repeat split; try done. by constructor.
  - simpl. repeat split; done.
Qed.

Lemma normal_fold r K l :
  normal r K → Forall nosep l →
  normal r (foldl (filepath.clean_step r) K l).
Proof.
  intros HK Hl. revert K HK. induction Hl as [|e l He _ IH]; intros K HK.
  - done.
  - simpl. apply IH. by apply normal_step.
Qed.

Lemma normal_kept d : normal (filepath.rooted d) (kept d).
Proof. apply normal_fold; [done|apply elements_all_nosep]. Qed.

Lemma normal_all_nosep r K : normal r K → Forall nosep K.
Proof.
  induction K as [|e K IH]; [constructor|].
  intros (He & _ & _ & _ & HK). constructor; auto.
Qed.

(** Cleaning again what [Clean] has kept keeps all of it. *)
Lemma normal_replay r K :
  normal r K → foldl (filepath.clean_step r) [] (reverse K) = K.
Proof.
  induction K as [|e K IH]; [done|].
  intros (He & H1 & H2 & H3 & HK).
  rewrite reverse_cons, foldl_app. simpl. rewrite (IH HK).
  destruct (String.eqb_spec e "..") as [->|Hne].
  - destruct (H3 eq_refl) as [-> Hall]. unfold filepath.clean_step. simpl.
    destruct K as [|top K]; [done|].
    inversion Hall as [|? ? Htop _]; subst. done.
  - apply clean_step_real. by apply real_spec.
Qed.

Lemma nometa_clean_step r K e :
  Forall nometa K → nometa e → Forall nometa (filepath.clean_step r K e).
Proof.
  intros HK He. unfold filepath.clean_step.
  destruct (String.eqb e "" || String.eqb e "."); [done|].
  destruct (String.eqb e "..").
  - destruct K as [|top K].
    + destruct r; [done|by constructor].
    + destruct (String.eqb top ".."); [by constructor|].
      by inversion HK.
  - by constructor.
Qed.

Lemma nometa_kept d : nometa d → Forall nometa (kept d).
Proof.
  intros Hd. unfold kept.
  assert (H : ∀ l K, Forall nometa K → Forall nometa l →
                     Forall nometa (foldl (filepath.clean_step
                                             (filepath.rooted d)) K l)).
  { induction l as [|e l IH]; intros K HK Hl; [done|].
    inversion Hl; subst. simpl. apply IH; [|done].
    by apply nometa_clean_step. }
  apply H; [constructor|by apply elements_all_nometa].
Qed.

Lemma nometa_cleaned_dir d : nometa d → nometa (cleaned_dir d).
Proof.
  intros Hd. unfold cleaned_dir. apply nometa_append. split.
  - by destruct (filepath.rooted d).
  - apply nometa_dirs. rewrite Forall_reverse. by apply nometa_kept.
Qed.

Lemma rooted_append d e :
  nosep e → filepath.rooted (d +:+ e) = filepath.rooted d.
Proof.
  intros He. destruct d as [|c d]; [|done]. rewrite append_nil_l.
  destruct e as [|c e]; [done|]. apply lacks_cons in He as [Hc _].
  exact Hc.
Qed.

Lemma dirlike_cleaned_dir d : dirlike (cleaned_dir d).
Proof.
  unfold cleaned_dir. destruct (reverse (kept d)) as [|x l] eqn:HK
    using rev_ind.
  - simpl. destruct (filepath.rooted d); [right; by exists ""|by left].
  - right. rewrite dirs_snoc.
    exists ((if filepath.rooted d then "/" else "")
            +:+ strings.Join (l ++ [x]) "/").
    by rewrite append_assoc.
Qed.

(** [Clean] on a path whose last element is real: the directory part is
    cleaned on its own and the last element is kept. *)
Lemma Clean_last d e :
  dirlike d → nosep e → real e →
  filepath.Clean (d +:+ e) = cleaned_dir d +:+ e.
Proof.
  intros Hd He Hr. unfold filepath.Clean, cleaned_dir, kept.
  assert (is_empty (d +:+ e) = false) as ->.
  { rewrite is_empty_append. apply real_spec in Hr as [? _].
    destruct e; [done|]. apply andb_false_r. }
  rewrite (rooted_append _ _ He).
  destruct (elements_dirlike d Hd) as (L & HL & HLe).
  rewrite (HLe e He), HL, !foldl_app. simpl.
  rewrite clean_step_empty, (clean_step_real _ _ _ Hr).
  rewrite reverse_cons, Join_snoc.
  destruct (filepath.rooted d); [by rewrite append_assoc|].
  rewrite append_nil_l, is_empty_append.
  apply real_spec in Hr as [? _].
  destruct e; [done|]. by rewrite andb_false_r.
Qed.

(** ** Splitting a path *)

Lemma dirlike_append d1 d2 : dirlike d1 → dirlike d2 → dirlike (d1 +:+ d2).
Proof.
  intros H1 [->|[d0 ->]].
  - by rewrite append_nil_r.
  - right. exists (d1 +:+ d0). by rewrite append_assoc.
Qed.

Lemma Split_nosep f : nosep f → filepath.Split f = ("", f).
Proof.
  induction f as [|c f IH]; [done|]. intros [Hc Hf]%lacks_cons.
  simpl. rewrite (IH Hf). simpl. unfold filepath.IsPathSeparator.
  by rewrite Hc.
Qed.

Lemma Split_unique d f :
  dirlike d → nosep f → filepath.Split (d +:+ f) = (d, f).
Proof.
  intros [->|[d0 ->]] Hf.
  - rewrite append_nil_l. by apply Split_nosep.
  - rewrite append_assoc. induction d0 as [|c d0 IH].
    + rewrite append_nil_l. change ("/" +:+ f) with (String "/" f).
      simpl. by rewrite (Split_nosep _ Hf).
    + rewrite (append_cons c d0). cbn [filepath.Split]. rewrite IH.
      rewrite (append_cons c d0). by destruct d0.
Qed.

Lemma Split_spec s :
  s = (filepath.Split s).1 +:+ (filepath.Split s).2
  ∧ dirlike (filepath.Split s).1 ∧ nosep (filepath.Split s).2.
Proof.
  induction s as [|c s (IH1 & IH2 & IH3)]; [by repeat split; try left|].
  simpl. destruct (filepath.Split s) as [dir file]. simpl in *.
  destruct dir as [|a dir]; simpl.
  - rewrite append_nil_l in IH1. subst file.
    destruct (filepath.IsPathSeparator c) eqn:Hc; simpl.
    + unfold filepath.IsPathSeparator in Hc. apply Ascii.eqb_eq in Hc as ->.
      split; [done|]. split; [right; by exists ""|done].
    + split; [done|]. split; [by left|]. by apply lacks_cons.
  - split; [by rewrite append_cons, <- IH1|]. split; [|done].
    destruct IH2 as [?|[d0 Hd0]]; [done|].
    right. exists (String c d0). by rewrite append_cons, <- Hd0.
Qed.

Lemma substring_prefix s t :
  String.substring 0 (String.length s) (s +:+ t) = s.
Proof.
  induction s as [|c s IH].
  - by destruct t.
  - rewrite append_cons. simpl. by rewrite IH.
Qed.

(** ** The directory a glob lists *)

Lemma rooted_real_first e s :
  nosep e → e ≠ "" → filepath.rooted (e +:+ s) = false.
Proof.
  intros He Hne. destruct e as [|c e]; [done|].
  by apply lacks_cons in He as [Hc _].
Qed.

Lemma elements_dirs M :
  M ≠ [] → Forall nosep M → filepath.elements (dirs M) = M ++ [""].
Proof.
  induction M as [|x M IH]; [done|]. intros _ HM.
  inversion HM as [|? ? Hx HM']; subst. cbn [dirs].
  rewrite elements_app_sep, (elements_nosep x) by done.
  destruct M as [|y M]; [done|]. by rewrite IH.
Qed.

Lemma kept_cleaned_dir d : kept (cleaned_dir d) = kept d
  ∧ filepath.rooted (cleaned_dir d) = filepath.rooted d.
Proof.
  pose proof (normal_kept d) as HN. unfold cleaned_dir.
  set (r := filepath.rooted d) in *. set (K := kept d) in *.
  destruct (reverse K) as [|x M] eqn:HM.
  { apply (f_equal reverse) in HM. rewrite reverse_involutive in HM.
    rewrite HM. simpl. by destruct r. }
  assert (Hnosep : Forall nosep (x :: M)).
  { rewrite <- HM, Forall_reverse. by eapply normal_all_nosep. }
  assert (Hx : x ≠ "").
  { assert (x ∈ K) as Hin by (rewrite <- elem_of_reverse, HM; left).
    clear -HN Hin. induction K as [|e K IH]; [by apply elem_of_nil in Hin|].
    destruct HN as (_ & He & _ & _ & HK).
    apply elem_of_cons in Hin as [->|Hin]; auto. }
  assert (Hroot : filepath.rooted ((if r then "/" else "") +:+ dirs (x :: M))
                  = r).
  { destruct r; [done|]. rewrite append_nil_l. simpl.
    apply rooted_real_first; [by inversion Hnosep|done]. }
  split; [|done]. unfold kept at 1. rewrite Hroot.
  assert (Hel : filepath.elements
                  ((if r then "/" else "") +:+ dirs (x :: M))
                = (if r then [""] else []) ++ (x :: M) ++ [""]).
  { destruct r.
    - change ("/" +:+ ?s) with (String "/" s). cbn [filepath.elements].
      change (filepath.IsPathSeparator "/") with true. cbv iota.
      by rewrite elements_dirs.
    - rewrite append_nil_l. by rewrite elements_dirs. }
  rewrite Hel, !foldl_app.
  assert (foldl (filepath.clean_step r) [] (if r then [""] else []) = [])
    as -> by (by destruct r).
  rewrite <- HM. cbn [foldl]. rewrite clean_step_empty.
  by apply normal_replay.
Qed.

Lemma cleaned_dir_idem d : cleaned_dir (cleaned_dir d) = cleaned_dir d.
Proof.
  destruct (kept_cleaned_dir d) as [HK Hr].
  unfold cleaned_dir at 1. by rewrite HK, Hr.
Qed.

(** The directory [Glob] lists for a pattern whose directory part is
    [cleaned_dir d]: [cleanGlobPath] takes the final separator off, and
    joining an entry name to the result gives the directory part back. *)
Lemma Join_entry d e :
  nosep e → real e →
  filepath.Join [filepath.cleanGlobPath (cleaned_dir d); e]
  = cleaned_dir d +:+ e.
Proof.
  intros He Hr.
  assert (Hcase :
    (cleaned_dir d = "" ∧ filepath.cleanGlobPath (cleaned_dir d) = ".")
    ∨ (cleaned_dir d = "/" ∧ filepath.cleanGlobPath (cleaned_dir d) = "/")
    ∨ (∃ x0, x0 ≠ "" ∧ cleaned_dir d = x0 +:+ "/"
             ∧ filepath.cleanGlobPath (cleaned_dir d) = x0)).
  { destruct (dirlike_cleaned_dir d) as [->|[x0 Hx0]]; [by left|].
    rewrite Hx0. destruct x0 as [|c x0]; [right; by left|].
    right; right. exists (String c x0). split; [done|]. split; [done|].
    unfold filepath.cleanGlobPath. rewrite append_cons.
    cbn [is_empty]. assert (String.eqb (String c (x0 +:+ "/")) "/" = false)
      as ->.
    { apply String.eqb_neq. intros [= -> H]. by destruct x0. }
    rewrite <- append_cons.
    replace (String.length (String c x0 +:+ "/") - 1)
      with (String.length (String c x0))
      by (rewrite length_append; simpl; lia).
    apply substring_prefix. }
  destruct Hcase as [[HX ->]|[[HX ->]|(x0 & Hx0 & HX & ->)]].
  - rewrite HX, append_nil_l.
    change (filepath.Join ["."; e]) with (filepath.Clean ("./" +:+ e)).
    rewrite Clean_last; [done|right; by exists "."|done..].
  - rewrite HX.
    change (filepath.Join ["/"; e]) with (filepath.Clean ("//" +:+ e)).
    rewrite Clean_last; [done|right; by exists "/"|done..].
  - assert (filepath.Join [x0; e] = filepath.Clean ((x0 +:+ "/") +:+ e)) as ->.
    { unfold filepath.Join. destruct x0; [done|].
      cbn [is_empty]. by rewrite append_assoc. }
    rewrite <- HX, Clean_last by (done || apply dirlike_cleaned_dir).
    by rewrite cleaned_dir_idem.
Qed.

Lemma nometa_cleanGlobPath d :
  nometa d → nometa (filepath.cleanGlobPath (cleaned_dir d)).
Proof.
  intros Hd. pose proof (nometa_cleaned_dir d Hd) as HX.
  destruct (dirlike_cleaned_dir d) as [->|[x0 Hx0]]; [done|].
  rewrite Hx0 in *. apply nometa_append in HX as [HX _].
  unfold filepath.cleanGlobPath.
  destruct (is_empty (x0 +:+ "/")); [done|].
  destruct (String.eqb (x0 +:+ "/") "/") eqn:Heq.
  - apply String.eqb_eq in Heq. by rewrite Heq.
  - replace (String.length (x0 +:+ "/") - 1) with (String.length x0)
      by (rewrite length_append; simpl; lia).
    by rewrite substring_prefix.
Qed.

(** ** The content hash *)

Lemma digit_in_hextable v :
  strings.ContainsByte hex.hextable (hex.digit (nat_of_ascii v / 16)) = true
  ∧ strings.ContainsByte hex.hextable (hex.digit (nat_of_ascii v mod 16))
    = true.
Proof. destruct v as [[] [] [] [] [] [] [] []]; split; reflexivity. Qed.

Lemma ContainsByte_ne s a c :
  strings.ContainsByte s a = true → strings.ContainsByte s c = false →
  Ascii.eqb a c = false.
Proof.
  intros Ha Hc. destruct (Ascii.eqb_spec a c) as [->|]; [|done].
  congruence.
Qed.

(** The hex encoding has no byte outside the hex digits. *)
Lemma EncodeToString_lacks c s :
  strings.ContainsByte hex.hextable c = false →
  lacks c (hex.EncodeToString s).
Proof.
  intros Hc. induction s as [|v s IH]; [done|].
  destruct (digit_in_hextable v) as [H1 H2].
  simpl. apply lacks_cons. split; [by eapply ContainsByte_ne|].
  apply lacks_cons. split; [by eapply ContainsByte_ne|done].
Qed.

Lemma hash_nosep buf : nosep (hash buf).
Proof. by apply EncodeToString_lacks. Qed.

Lemma hash_no_dash buf : lacks "-" (hash buf).
Proof. by apply EncodeToString_lacks. Qed.

(** ** The paths [compile] and [findFile] build *)

Lemma real_with_dash f y : real ((f +:+ "-") +:+ y).
Proof.
  assert (H : ¬ lacks "-" ((f +:+ "-") +:+ y)).
  { intros [[_ H]%lacks_append _]%lacks_append. done. }
  apply real_spec. repeat split; intros Heq; rewrite Heq in H; by apply H.
Qed.

Lemma glob_stem_nosep name : nosep (glob_stem name).
Proof.
  unfold glob_stem. apply lacks_append. split; [|done].
  apply Split_spec.
Qed.

Lemma glob_stem_nonempty name : glob_stem name ≠ "".
Proof.
  unfold glob_stem. by destruct ((filepath.Split ("__" +:+ name)).2).
Qed.

Lemma glob_stem_nometa name : nometa name → nometa (glob_stem name).
Proof.
  intros Hn. unfold glob_stem. apply nometa_append. split; [|done].
  assert (H : nometa ("__" +:+ name)) by (by apply nometa_append).
  destruct (Split_spec ("__" +:+ name)) as (Heq & _ & _).
  rewrite Heq in H. by apply nometa_append in H as [_ ?].
Qed.

Lemma glob_dir_nometa outDir name :
  nometa outDir → nometa name →
  nometa (filepath.cleanGlobPath (glob_dir outDir name)).
Proof.
  intros Ho Hn. apply nometa_cleanGlobPath.
  apply nometa_append. split.
  - destruct (is_empty outDir); [done|]. by apply nometa_append.
  - assert (H : nometa ("__" +:+ name)) by (by apply nometa_append).
    destruct (Split_spec ("__" +:+ name)) as (Heq & _ & _).
    rewrite Heq in H. by apply nometa_append in H as [? _].
Qed.

(** [filepath.Join [outDir; "__<name>-" ++ y]] for a [y] without separator:
    the cleaned directory, the last element of the prefix, and [y]. *)
Lemma Join_prefix outDir name y :
  nosep y →
  filepath.Join [outDir; filePrefix name +:+ y]
  = glob_dir outDir name +:+ glob_stem name +:+ y.
Proof.
  intros Hy. destruct (Split_spec ("__" +:+ name)) as (Heq & Hd & Hf).
  set (pd := (filepath.Split ("__" +:+ name)).1) in *.
  set (f0 := (filepath.Split ("__" +:+ name)).2) in *.
  set (D0 := if is_empty outDir then "" else outDir +:+ "/").
  assert (Hx : filePrefix name +:+ y = pd +:+ ((f0 +:+ "-") +:+ y)).
  { rewrite filePrefix_eq.
    rewrite <- (append_assoc "__" name "-"), Heq. by rewrite !append_assoc. }
  assert (HJ : filepath.Join [outDir; filePrefix name +:+ y]
               = filepath.Clean (D0 +:+ filePrefix name +:+ y)).
  { unfold D0. destruct outDir as [|c o]; [reflexivity|].
    cbn [filepath.Join strings.Join is_empty]. by rewrite append_assoc. }
  rewrite HJ, Hx, <- append_assoc.
  rewrite Clean_last.
  - unfold glob_dir, glob_stem. fold pd f0 D0. by rewrite !append_assoc.
  - apply dirlike_append; [|done]. unfold D0.
    destruct (is_empty outDir); [by left|right; by eexists].
  - apply lacks_append. split; [|done]. apply lacks_append. by split.
  - apply real_with_dash.
Qed.

Lemma glob_dir_dirlike outDir name : dirlike (glob_dir outDir name).
Proof. apply dirlike_cleaned_dir. Qed.

(** The pattern [findFile] and [removeGlob] hand to [Glob]. *)
Lemma pattern_eq outDir name ext :
  nosep ext →
  filepath.Join [outDir; filePrefix name +:+ "*" +:+ ext]
  = glob_dir outDir name +:+ glob_stem name +:+ "*" +:+ ext.
Proof.
  intros He. apply Join_prefix. apply lacks_append. by split.
Qed.

(** The path [compile] writes. *)
Lemma outPath_eq outDir name buf ext :
  nosep ext →
  outPath outDir name buf ext
  = glob_dir outDir name +:+ glob_stem name +:+ hash buf +:+ ext.
Proof.
  intros He. apply Join_prefix. apply lacks_append.
  split; [apply hash_nosep|done].
Qed.


(** ** What [Glob] returns for [<dir>/<stem>*<ext>] *)

Lemma pathSeparatorsLimit_succ :
  pathSeparatorsLimit = S (pred pathSeparatorsLimit).
Proof. reflexivity. Qed.

Lemma glob_names_noerr dir pattern names matches :
  (∀ n, (filepath.Match pattern n).2 = None) →
  glob_names dir pattern names matches
  = (matches ++ ((λ n, filepath.Join [dir; n])
                   <$> filter (λ n, (filepath.Match pattern n).1 = true)
                         names), None).
Proof.
  intros Hn. revert matches. induction names as [|n names IH];
    intros matches.
  - simpl. by rewrite app_nil_r.
  - cbn [glob_names]. specialize (Hn n).
    destruct (filepath.Match pattern n) as [b e] eqn:HM. simpl in Hn.
    subst e. destruct b.
    + rewrite IH, filter_cons_True by (by rewrite HM).
      by rewrite fmap_cons, <- app_assoc.
    + rewrite IH, filter_cons_False; [done|]. by rewrite HM.
Qed.

Section glob_star.
Variables (d pl ext : string).
Hypothesis d_plain : nometa d.
Hypothesis pl_plain : nometa pl.
Hypothesis pl_nosep : nosep pl.
Hypothesis pl_nonempty : pl ≠ "".
Hypothesis ext_plain : nometa ext.
Hypothesis ext_nosep : nosep ext.

Let X := cleaned_dir d.
Let dir := filepath.cleanGlobPath X.
Let pat := pl +:+ "*" +:+ ext.

Lemma Glob_star (fs : gmap string node) :
  Glob fs (X +:+ pat) = (matching fs dir pat, None).
Proof.
  unfold Glob. rewrite pathSeparatorsLimit_succ. cbn [globWithLimit].
  assert (HP : X +:+ pat = (X +:+ pl) +:+ "*" +:+ ext)
    by (unfold pat; by rewrite append_assoc).
  assert (HXpl : nometa (X +:+ pl)).
  { apply nometa_append. split; [by apply nometa_cleaned_dir|done]. }
  assert (HXne : X +:+ pl ≠ "").
  { intros H. apply (f_equal String.length) in H.
    rewrite length_append in H. destruct pl; [done|]. simpl in H. lia. }
  pose proof (Match_star_noerr (X +:+ pl) ext HXpl HXne ext_plain "") as Hn.
  rewrite <- HP in Hn.
  destruct (filepath.Match (X +:+ pat) "") as [b e]. simpl in Hn. subst e.
  assert (filepath.hasMeta (X +:+ pat) = true) as ->
    by (rewrite HP; apply hasMeta_star).
  cbn [negb].
  rewrite Split_unique.
  2:{ apply dirlike_cleaned_dir. }
  2:{ unfold pat. apply lacks_append. split; [done|].
      by apply lacks_append. }
  fold dir.
  assert (filepath.hasMeta dir = false) as ->
    by (by apply nometa_cleanGlobPath).
  cbn [negb]. unfold glob, matching.
  destruct (os.IsDir fs dir); [|done].
  rewrite glob_names_noerr; [done|].
  intros n. by apply Match_star_noerr.
Qed.

Lemma elem_of_Readdirnames (fs : gmap string node) (n : string) :
  n ∈ os.Readdirnames fs dir
  ↔ ∃ k, n = os.base k ∧ is_Some (fs !! k) ∧ os.is_entry dir k = true.
Proof.
  unfold os.Readdirnames. rewrite merge_sort_Permutation.
  rewrite list_elem_of_fmap. split.
  - intros (k & -> & [Hk Hin]%list_elem_of_filter). exists k.
    split; [done|]. split; [|by apply Is_true_true].
    unfold os.paths in Hin.
    apply list_elem_of_fmap in Hin as ([k' v] & -> & Hin).
    apply elem_of_map_to_list in Hin. by exists v.
  - intros (k & -> & [v Hv] & Hk). exists k. split; [done|].
    apply list_elem_of_filter. split; [by apply Is_true_true|].
    unfold os.paths. apply list_elem_of_fmap. exists (k, v).
    split; [done|]. by apply elem_of_map_to_list.
Qed.

Lemma is_entry_Join k :
  os.is_entry dir k = true → filepath.Join [dir; os.base k] = k.
Proof.
  unfold os.is_entry. intros [_ H]%andb_true_iff.
  by apply String.eqb_eq.
Qed.

(** A path is among the matches exactly when the directory exists and the
    path is an entry of it, present on disk, whose name matches. *)
Lemma elem_of_matching (fs : gmap string node) (f : string) :
  f ∈ matching fs dir pat
  ↔ os.IsDir fs dir = true ∧ is_Some (fs !! f)
    ∧ os.is_entry dir f = true ∧ (filepath.Match pat (os.base f)).1 = true.
Proof.
  unfold matching. destruct (os.IsDir fs dir).
  2:{ split; [by intros ?%elem_of_nil|by intros [? _]]. }
  rewrite list_elem_of_fmap. split.
  - intros (n & -> & [HM Hn]%list_elem_of_filter).
    apply elem_of_Readdirnames in Hn as (k & -> & Hk & He).
    rewrite (is_entry_Join _ He). done.
  - intros (_ & Hf & He & HM). exists (os.base f).
    split; [by rewrite is_entry_Join|].
    apply list_elem_of_filter. split; [done|].
    apply elem_of_Readdirnames. by exists f.
Qed.

Lemma NoDup_Readdirnames (fs : gmap string node) :
  NoDup (os.Readdirnames fs dir).
Proof.
  unfold os.Readdirnames. rewrite merge_sort_Permutation.
  apply NoDup_fmap_2_strong.
  - intros k1 k2 [H1 _]%list_elem_of_filter [H2 _]%list_elem_of_filter Heq.
    apply Is_true_true in H1, H2.
    by rewrite <- (is_entry_Join _ H1), <- (is_entry_Join _ H2), Heq.
  - apply NoDup_filter, NoDup_fst_map_to_list.
Qed.

Lemma NoDup_matching (fs : gmap string node) : NoDup (matching fs dir pat).
Proof.
  unfold matching. destruct (os.IsDir fs dir); [|constructor].
  apply NoDup_fmap_2_strong.
  - intros n1 n2 [_ H1]%list_elem_of_filter [_ H2]%list_elem_of_filter Heq.
    apply elem_of_Readdirnames in H1 as (k1 & -> & _ & H1).
    apply elem_of_Readdirnames in H2 as (k2 & -> & _ & H2).
    rewrite (is_entry_Join _ H1), (is_entry_Join _ H2) in Heq. by subst.
  - apply NoDup_filter, NoDup_Readdirnames.
Qed.

(** A path [X ++ e] with a real last element lies in the directory the glob
    lists, under the name [e]. *)
Lemma entry_of_dir e :
  nosep e → real e →
  os.base (X +:+ e) = e ∧ os.parent (X +:+ e) = dir
  ∧ os.is_entry dir (X +:+ e) = true.
Proof.
  intros He Hr.
  assert (HS : filepath.Split (X +:+ e) = (X, e))
    by (apply Split_unique; [apply dirlike_cleaned_dir|done]).
  unfold os.base, os.parent, os.is_entry, os.base. rewrite HS. simpl.
  split; [done|]. split; [done|].
  apply andb_true_iff. split; [by rewrite Hr|].
  apply String.eqb_eq. by apply Join_entry.
Qed.

End glob_star.

(** ** Lists without duplicates *)

Lemma NoDup_singleton_eq {A} (l : list A) (a : A) :
  NoDup l → a ∈ l → (∀ x, x ∈ l → x = a) → l = [a].
Proof.
  intros Hnd Ha Hall. destruct l as [|x l]; [by apply elem_of_nil in Ha|].
  assert (x = a) as -> by (apply Hall; left).
  destruct l as [|y l]; [done|].
  assert (y = a) as -> by (apply Hall; right; left).
  apply NoDup_cons in Hnd as [Hn _]. destruct Hn. left.
Qed.


(** ** The compile protocol on names without magic bytes *)

Section protocol.
Variables (outDir name ext : string).
Hypothesis outDir_plain : nometa outDir.
Hypothesis name_plain : nometa name.
Hypothesis ext_plain : nometa ext.
Hypothesis ext_nosep : nosep ext.

Let d := (if is_empty outDir then "" else outDir +:+ "/")
         +:+ (filepath.Split ("__" +:+ name)).1.
Let dir := filepath.cleanGlobPath (glob_dir outDir name).
Let stem := glob_stem name.
Let pat := stem +:+ "*" +:+ ext.
Let glob := filepath.Join [outDir; filePrefix name +:+ "*" +:+ ext].

Lemma d_plain : nometa d.
Proof.
  unfold d. apply nometa_append. split.
  - destruct (is_empty outDir); [done|]. by apply nometa_append.
  - assert (H : nometa ("__" +:+ name)) by (by apply nometa_append).
    destruct (Split_spec ("__" +:+ name)) as (Heq & _ & _).
    rewrite Heq in H. by apply nometa_append in H as [? _].
Qed.

(** [Glob] on the pattern of this name lists the matching entries of one
    directory. *)
Lemma Glob_pattern (fs : gmap string node) :
  Glob fs glob = (matching fs dir pat, None).
Proof.
  unfold glob. rewrite pattern_eq by done.
  apply (Glob_star d stem ext).
  - apply d_plain.
  - by apply glob_stem_nometa.
  - apply glob_stem_nosep.
  - apply glob_stem_nonempty.
  - done.
  - done.
Qed.

(** The last element of a fingerprinted path, or of the path of any bundle
    whose name extends this one. *)
Lemma stem_entry (mid : string) :
  nosep mid →
  let e := stem +:+ mid +:+ ext in
  os.base (glob_dir outDir name +:+ e) = e
  ∧ os.parent (glob_dir outDir name +:+ e) = dir
  ∧ os.is_entry dir (glob_dir outDir name +:+ e) = true
  ∧ filepath.Match pat e = (true, None).
Proof.
  intros Hmid e.
  assert (He : nosep e).
  { apply lacks_append. split; [apply glob_stem_nosep|].
    by apply lacks_append. }
  assert (Hr : real e).
  { unfold e, stem, glob_stem. apply real_with_dash. }
  destruct (entry_of_dir d e He Hr) as (H1 & H2 & H3).
  repeat split; [done..|].
  apply Match_star_complete; [by apply glob_stem_nometa|
                              apply glob_stem_nonempty|done..].
Qed.

Lemma in_matching (fs : gmap string node) (mid : string) :
  nosep mid → os.IsDir fs dir = true →
  is_Some (fs !! (glob_dir outDir name +:+ stem +:+ mid +:+ ext)) →
  glob_dir outDir name +:+ stem +:+ mid +:+ ext ∈ matching fs dir pat.
Proof.
  intros Hmid Hdir Hf.
  destruct (stem_entry mid Hmid) as (Hb & _ & He & HM).
  apply (elem_of_matching d). repeat split; [done..|].
  cbv zeta in Hb. rewrite Hb. fold pat. by rewrite HM.
Qed.

(** What a successful [compile] leaves: the matches are gone and the new
    file is there, in a directory that existed before. *)
Lemma compile_glob (fs fs' : gmap string node) (paths : list string) :
  compile fs outDir name ext paths = (fs', None) →
  ∃ contents,
    let buf := bundle contents in
    let dst := outPath outDir name buf ext in
    reads fs paths contents
    ∧ os.IsDir fs dir = true
    ∧ os.IsDir fs' dir = true
    ∧ dst ≠ dir
    ∧ fs' = <[dst := File buf]> (without fs (matching fs dir pat)).
Proof.
  intros Hc.
  apply compile_ok in Hc as (contents & old & Hr & HG & Hp & Hnd & ->).
  fold glob in HG. rewrite Glob_pattern in HG. injection HG as <-.
  exists contents. cbv zeta.
  set (buf := bundle contents) in *.
  set (dst := outPath outDir name buf ext) in *.
  assert (Hdst : dst = glob_dir outDir name +:+ stem +:+ hash buf +:+ ext)
    by (by apply outPath_eq).
  destruct (stem_entry (hash buf) (hash_nosep buf)) as (_ & Hpar & _ & _).
  cbv zeta in Hpar. rewrite <- Hdst in Hpar. rewrite Hpar in Hp.
  assert (Hne : dst ≠ dir) by (intros Heq; by rewrite Heq in Hnd).
  split; [done|].
  assert (Hfs : fs !! dir = Some Dir).
  { rewrite lookup_without in Hp. by case_decide. }
  split; [unfold os.IsDir; by rewrite Hfs|].
  split; [|done].
  unfold os.IsDir. by rewrite lookup_insert_ne, Hp.
Qed.

(** After a successful [compile] the glob of the name lists the file just
    written and nothing else. *)
Lemma compile_matching (fs fs' : gmap string node)
    (paths contents : list string) :
  reads fs paths contents →
  compile fs outDir name ext paths = (fs', None) →
  matching fs' dir pat = [outPath outDir name (bundle contents) ext].
Proof.
  intros Hr Hc.
  destruct (compile_glob _ _ _ Hc)
    as (contents' & Hr' & Hdir & Hdir' & Hne & Hfs).
  cbv zeta in *. rewrite (reads_inj _ _ _ _ Hr' Hr) in *. clear Hr' contents'.
  set (buf := bundle contents) in *.
  set (dst := outPath outDir name buf ext) in *.
  assert (Hdst : dst = glob_dir outDir name +:+ stem +:+ hash buf +:+ ext)
    by (by apply outPath_eq).
  apply NoDup_singleton_eq.
  - apply (NoDup_matching d).
  - rewrite Hdst. apply in_matching; [apply hash_nosep|done|].
    rewrite <- Hdst, Hfs, lookup_insert_eq. by eexists.
  - intros f Hf. destruct (decide (f = dst)) as [|Hfd]; [done|]. exfalso.
    apply (elem_of_matching d) in Hf as (_ & Hsome & He & HM).
    rewrite Hfs, lookup_insert_ne, lookup_without in Hsome by done.
    case_decide as Hold; [by destruct Hsome|].
    apply Hold. apply (elem_of_matching d). by repeat split.
Qed.

End protocol.

(** ** One file per name *)




(** ** Names that extend one another *)

Lemma no_dash_extension (h s m : string) :
  lacks "-" h → h ≠ s +:+ "-" +:+ m.
Proof.
  intros Hh ->. apply lacks_append in Hh as [_ Hh].
  by apply lacks_append in Hh as [Hh _].
Qed.

Section overlap.
Variables (outDir n1 s ext : string).
Hypothesis outDir_plain : nometa outDir.
Hypothesis n1_plain : nometa n1.
Hypothesis s_plain : nometa s.
Hypothesis s_nosep : nosep s.
Hypothesis ext_plain : nometa ext.
Hypothesis ext_nosep : nosep ext.

Let n2 := n1 +:+ "-" +:+ s.
Let X := glob_dir outDir n1.
Let dir := filepath.cleanGlobPath X.
Let stem := glob_stem n1.













End overlap.




(** ** The hash function on known inputs *)

Example hash_empty : hash "" = "d41d8cd98f00b204e9800998ecf8427e".
Proof. vm_compute. reflexivity. Qed.

Example hash_abc : hash "abc" = "900150983cd24fb0d6963f7d28e17f72".
Proof. vm_compute. reflexivity. Qed.

Example hash_two_blocks :
  hash "aaaaaaaaaaaaaaaaaaaaaaaaaaaaaaaaaaaaaaaaaaaaaaaaaaaaaaaaaaaaaaaaaaaaaa"
  = "0f5c6c4e740bfcc08c3c26ccb2673d46".
Proof. vm_compute. reflexivity. Qed.

(** * Further properties of the code *)

(** ** Shape of the content hash *)

Lemma length_EncodeToString s :
  String.length (hex.EncodeToString s) = 2 * String.length s.
Proof. induction s as [|v s IH]; [done|]. simpl. rewrite IH. lia. Qed.

Lemma length_string_of_bytes l :
  String.length (string_of_bytes l) = length l.
Proof. induction l as [|z l IH]; [done|]. simpl. by rewrite IH. Qed.

Lemma length_Sum data : String.length (md5.Sum data) = 16.
Proof.
  unfold md5.Sum. cbv zeta.
  generalize (foldl md5.block md5.init
                (md5.groups 64
                   (length (md5.pad (bytes_of_string data)) / 64)
                   (md5.pad (bytes_of_string data)))).
  intros st. by rewrite length_string_of_bytes.
Qed.

(** X1. The content hash of any buffer is 32 bytes long and every byte of
    it is one of [0123456789abcdef]. *)
Theorem hash_format (buf : string) :
  String.length (hash buf) = 32 ∧ is_hex (hash buf).
Proof.
  split.
  - unfold hash. by rewrite length_EncodeToString, length_Sum.
  - intros c Hc.
    destruct (strings.ContainsByte hex.hextable c) eqn:Hh; [done|].
    pose proof (EncodeToString_lacks c (md5.Sum buf) Hh) as Hl.
    unfold lacks in Hl. unfold hash in Hc. congruence.
Qed.

(** ** Inline rendering *)

Lemma inline_one (fs : gmap string node)
    (path compiledName ext f bytes : string) :
  Glob fs (filepath.Join [path; filePrefix compiledName +:+ "*" +:+ ext])
  = ([f], None) →
  ioutil.ReadFile fs f = (bytes, None) →
  inline fs path compiledName ext
  = if strings.HasSuffix ext "css" then
      ("<style>" +:+ bytes +:+ "</style>", None)
    else if strings.HasSuffix ext "js" then
      ("<script>" +:+ bytes +:+ "</script>", None)
    else ("", Some (fmt.Errorf "No inline template for ext %s" [ext])).
Proof.
  intros HG HR. unfold inline.
  rewrite (findFile_one _ _ _ _ false _ HG), HR.
  destruct (strings.HasSuffix ext "css"); [by rewrite Sprintf_cssInline|].
  destruct (strings.HasSuffix ext "js"); [by rewrite Sprintf_jsInline|done].
Qed.

(** X2. When exactly one file [f] matches [__<name>-*.min.css] and it can be
    read, [CSSInline] returns its content, as it is, between [<style>] and
    [</style>]; [JSInline] does the same between [<script>] and [</script>]
    for the single match of [__<name>-*.min.js]. *)
Theorem CSSInline_JSInline_format (fs : gmap string node)
    (path compiledName f bytes : string) :
  ioutil.ReadFile fs f = (bytes, None) →
  (Glob fs
     (filepath.Join [path; filePrefix compiledName +:+ "*" +:+ ".min.css"])
   = ([f], None) →
   CSSInline fs path compiledName
   = ("<style>" +:+ bytes +:+ "</style>", None))
  ∧ (Glob fs
       (filepath.Join [path; filePrefix compiledName +:+ "*" +:+ ".min.js"])
     = ([f], None) →
     JSInline fs path compiledName
     = ("<script>" +:+ bytes +:+ "</script>", None)).
Proof.
  intros HR. split; intros HG.
  - unfold CSSInline. by rewrite (inline_one _ _ _ _ _ _ HG HR).
  - unfold JSInline. by rewrite (inline_one _ _ _ _ _ _ HG HR).
Qed.

Lemma CSSInline_JSInline_format_witness :
  ioutil.ReadFile fs_stale "out/__app-vendor-4567.min.css" = ("older", None)
  ∧ CSSInline fs_stale "out" "app-vendor" = ("<style>older</style>", None).
Proof.
  assert (HR : ioutil.ReadFile fs_stale "out/__app-vendor-4567.min.css"
               = ("older", None)) by reflexivity.
  assert (HG : Glob fs_stale
                 (filepath.Join
                    ["out"; filePrefix "app-vendor" +:+ "*" +:+ ".min.css"])
               = (["out/__app-vendor-4567.min.css"], None))
    by (vm_compute; reflexivity).
  split; [exact HR|].
  exact (proj1 (CSSInline_JSInline_format fs_stale "out" "app-vendor"
                  "out/__app-vendor-4567.min.css" "older" HR) HG).
Defined.

(** ** The helper registry *)

Lemma findFile_error_empty (fs : gmap string node)
    (path compiledName ext : string) (abs : bool) :
  (findFile fs path compiledName ext abs).2 ≠ None →
  (findFile fs path compiledName ext abs).1 = "".
Proof.
  unfold findFile. destruct (Glob fs _) as [files [e|]]; [done|].
  destruct (1 <? length files)%nat; [done|].
  destruct (length files <? 1)%nat; [done|]. by destruct abs.
Qed.

Lemma tag_error_empty (fs : gmap string node) (path compiledName ext : string) :
  (tag fs path compiledName ext).2 ≠ None →
  (tag fs path compiledName ext).1 = "".
Proof.
  unfold tag.
  destruct (findFile fs path compiledName ext true) as [file [?|]]; [done|].
  destruct (strings.HasSuffix ext "css"); [done|].
  by destruct (strings.HasSuffix ext "js").
Qed.

Lemma inline_error_empty (fs : gmap string node)
    (path compiledName ext : string) :
  (inline fs path compiledName ext).2 ≠ None →
  (inline fs path compiledName ext).1 = "".
Proof.
  unfold inline.
  destruct (findFile fs path compiledName ext false) as [file [?|]]; [done|].
  destruct (ioutil.ReadFile fs file) as [bytes [?|]]; [done|].
  destruct (strings.HasSuffix ext "css"); [done|].
  by destruct (strings.HasSuffix ext "js").
Qed.

(** X3. [TemplateFunctions] registers exactly the five names [cssTag],
    [cssInline], [jsTag], [jsInline] and [imgPath], bound to [CSSTag],
    [CSSInline], [JSTag], [JSInline] and [ImgPath]; whichever helper a
    template calls, an error comes with the empty string as its output. *)
Theorem TemplateFunctions_helpers (name : string) (h : helper) :
  (TemplateFunctions !! name = Some h
   ↔ (name, h) ∈ [ ("cssTag", Helper2 CSSTag);
                   ("cssInline", Helper2 CSSInline);
                   ("jsTag", Helper2 JSTag); ("jsInline", Helper2 JSInline);
                   ("imgPath", Helper3 ImgPath) ])
  ∧ (TemplateFunctions !! name = Some h →
     match h with
     | Helper2 f => ∀ fs path compiledName,
         (f fs path compiledName).2 ≠ None → (f fs path compiledName).1 = ""
     | Helper3 f => ∀ fs path compiledName ext,
         (f fs path compiledName ext).2 ≠ None →
         (f fs path compiledName ext).1 = ""
     end).
Proof.
  assert (Hiff : TemplateFunctions !! name = Some h
    ↔ (name, h) ∈ [ ("cssTag", Helper2 CSSTag);
                    ("cssInline", Helper2 CSSInline);
                    ("jsTag", Helper2 JSTag); ("jsInline", Helper2 JSInline);
                    ("imgPath", Helper3 ImgPath) ]).
  { unfold TemplateFunctions. symmetry. apply elem_of_list_to_map.
    apply (bool_decide_unpack _). vm_compute. reflexivity. }
  split; [exact Hiff|]. intros Hl. apply Hiff in Hl.
  repeat (apply elem_of_cons in Hl as [[= -> ->]|Hl]);
    [| | | | |by apply elem_of_nil in Hl]; intros fs path compiledName.
  - apply tag_error_empty.
  - apply inline_error_empty.
  - apply tag_error_empty.
  - apply inline_error_empty.
  - intros ext. apply findFile_error_empty.
Qed.

Lemma TemplateFunctions_helpers_witness :
  TemplateFunctions !! "imgPath" = Some (Helper3 ImgPath)
  ∧ (ImgPath fs_src "out" "logo" ".png").1 = "".
Proof.
  assert (Hl : TemplateFunctions !! "imgPath" = Some (Helper3 ImgPath))
    by reflexivity.
  split; [exact Hl|].
  apply (proj2 (TemplateFunctions_helpers "imgPath" (Helper3 ImgPath)) Hl).
  vm_compute. discriminate.
Defined.

(** ** What [compile] leaves alone *)






(** ** Failures of [compile] after the sources are read *)

Lemma Remove_error (fs fs' : gmap string node) (name : string) (e : err) :
  os.Remove fs name = (fs', Some e) → fs' = fs.
Proof.
  unfold os.Remove. destruct (fs !! name) as [[data|]|]; [done| |congruence].
  destruct (os.has_entries fs name); congruence.
Qed.

Lemma remove_all_stops (fs fs1 : gmap string node) (pre : list string)
    (f : string) (post : list string) (e : err) :
  remove_all fs pre = (fs1, None) →
  (os.Remove fs1 f).2 = Some e →
  remove_all fs (pre ++ f :: post) = (without fs pre, Some e).
Proof.
  revert fs. induction pre as [|g pre IH]; intros fs; simpl.
  - intros [= <-] Hf. destruct (os.Remove fs f) as [fs2 [e'|]] eqn:HR;
      simpl in Hf; [|done].
    injection Hf as ->. by rewrite (Remove_error _ _ _ _ HR).
  - destruct (os.Remove fs g) as [fs2 [e'|]] eqn:HR; [done|].
    apply Remove_ok in HR as ->. intros Hpre Hf. by apply IH.
Qed.

(** X5. There is no rollback. When the removal of a stale match [f] fails,
    [compile] returns that error at once: the matches listed before [f] are
    already deleted, [f] and the matches after it are left, and the new file
    is not written. *)
Theorem compile_removal_error (fs fs1 : gmap string node)
    (outDir compiledName ext : string) (paths pre : list string) (f : string)
    (post : list string) (e : err) :
  (combine fs "" paths).2 = None →
  Glob fs (filepath.Join [outDir; filePrefix compiledName +:+ "*" +:+ ext])
  = (pre ++ f :: post, None) →
  remove_all fs pre = (fs1, None) →
  (os.Remove fs1 f).2 = Some e →
  compile fs outDir compiledName ext paths = (without fs pre, Some e).
Proof.
  intros Hc HG Hpre Hf. unfold compile, removeGlob.
  destruct (combine fs "" paths) as [buf [e1|]]; [done|].
  by rewrite HG, (remove_all_stops _ _ _ _ _ _ Hpre Hf).
Qed.

Lemma compile_removal_error_witness :
  let r := compile fs_blocked "out" "app" ".min.css" ["a.css"] in
  r.2 = Some (PathError "remove" "out/__app-2.min.css" ENOTEMPTY)
  ∧ r.1 !! "out/__app-1.min.css" = None
  ∧ r.1 !! "out/__app-2.min.css" = Some Dir
  ∧ r.1 !! "out/__app-3.min.css" = Some (File "three")
  ∧ r.1 !! outPath "out" "app" (css_a +:+ lf +:+ lf) ".min.css" = None.
Proof.
  cbv zeta.
  rewrite (compile_removal_error fs_blocked
             (delete "out/__app-1.min.css" fs_blocked) "out" "app" ".min.css"
             ["a.css"] ["out/__app-1.min.css"] "out/__app-2.min.css"
             ["out/__app-3.min.css"]
             (PathError "remove" "out/__app-2.min.css" ENOTEMPTY)).
  - repeat split; vm_compute; reflexivity.
  - reflexivity.
  - vm_compute. reflexivity.
  - vm_compute. reflexivity.
  - vm_compute. reflexivity.
Defined.

(** ** Reading stops at the first failure *)

(** X6. [combine] appends to the buffer until a read fails: with the files
    before the first unreadable one holding [contents], it returns the read
    error and a buffer extended by the bundle of [contents]; the files after
    the unreadable one are not read. *)
Theorem combine_partial (fs : gmap string node) (writer : string)
    (pre contents : list string) (p : string) (post : list string) (e : err) :
  reads fs pre contents →
  (ioutil.ReadFile fs p).2 = Some e →
  combine fs writer (pre ++ p :: post)
  = (writer +:+ bundle contents, Some e).
Proof.
  intros Hr Hp. revert writer.
  induction Hr as [|q data pre contents Hq _ IH]; intros writer; simpl.
  - destruct (ioutil.ReadFile fs p) as [b [e'|]]; simpl in Hp; [|done].
    injection Hp as ->. by rewrite append_nil_r.
  - rewrite Hq, IH. by rewrite !append_assoc.
Qed.

Lemma combine_partial_witness :
  combine fs_src "x" ["a.css"; "missing.css"; "b.css"]
  = ("x" +:+ css_a +:+ lf +:+ lf,
     Some (PathError "open" "missing.css" ENOENT)).
Proof.
  assert (Hr : reads fs_src ["a.css"] [css_a]) by (by repeat constructor).
  assert (Hp : (ioutil.ReadFile fs_src "missing.css").2
               = Some (PathError "open" "missing.css" ENOENT))
    by reflexivity.
  exact (combine_partial fs_src "x" ["a.css"] [css_a] "missing.css"
           ["b.css"] _ Hr Hp).
Defined.

(** ** When [compile] succeeds *)

Lemma remove_all_files (fs : gmap string node) (files : list string) :
  NoDup files →
  (∀ f, f ∈ files → ∃ data, fs !! f = Some (File data)) →
  remove_all fs files = (without fs files, None).
Proof.
  revert fs. induction files as [|f files IH]; intros fs Hnd Hall; [done|].
  apply NoDup_cons in Hnd as [Hf Hnd].
  destruct (Hall f) as [data Hdata]; [left|].
  cbn [remove_all]. unfold os.Remove. rewrite Hdata.
  rewrite IH; [done|done|].
  intros g Hg. destruct (Hall g) as [d Hd]; [by right|].
  exists d. rewrite lookup_delete_ne; [done|]. by intros ->.
Qed.

Section outcomes.
Variables (outDir name ext : string).
Hypothesis outDir_plain : nometa outDir.
Hypothesis name_plain : nometa name.
Hypothesis ext_plain : nometa ext.
Hypothesis ext_nosep : nosep ext.

Let dir := filepath.cleanGlobPath (glob_dir outDir name).
Let pat := glob_stem name +:+ "*" +:+ ext.
Let glob := filepath.Join [outDir; filePrefix name +:+ "*" +:+ ext].

Lemma outPath_parent buf : os.parent (outPath outDir name buf ext) = dir.
Proof.
  rewrite outPath_eq by done.
  by destruct (stem_entry outDir name ext name_plain ext_plain ext_nosep
                 (hash buf) (hash_nosep buf)) as (_ & Hp & _).
Qed.

Lemma outPath_in_matching (fs : gmap string node) buf :
  os.IsDir fs dir = true →
  is_Some (fs !! outPath outDir name buf ext) →
  outPath outDir name buf ext ∈ matching fs dir pat.
Proof.
  intros Hdir Hf. rewrite outPath_eq in * by done.
  apply in_matching; try done. apply hash_nosep.
Qed.

(** With readable sources, an existing output directory and stale matches
    that are all regular files, every step of [compile] succeeds. *)
Lemma compile_total (fs : gmap string node) (paths contents : list string) :
  reads fs paths contents →
  os.IsDir fs dir = true →
  (∀ f, f ∈ matching fs dir pat → ∃ data, fs !! f = Some (File data)) →
  compile fs outDir name ext paths
  = (<[outPath outDir name (bundle contents) ext := File (bundle contents)]>
       (without fs (matching fs dir pat)), None).
Proof.
  intros Hr Hdir Hfiles. unfold compile, removeGlob.
  rewrite (combine_reads _ "" _ _ Hr), append_nil_l.
  fold glob. unfold glob. rewrite Glob_pattern by done. fold dir pat.
  rewrite remove_all_files; [|by apply NoDup_matching|done].
  set (buf := bundle contents). set (dst := outPath outDir name buf ext).
  set (fs1 := without fs (matching fs dir pat)).
  assert (Hd : fs !! dir = Some Dir).
  { unfold os.IsDir in Hdir. by destruct (fs !! dir) as [[?|]|]. }
  assert (Hd1 : fs1 !! dir = Some Dir).
  { unfold fs1. rewrite lookup_without. case_decide as Hin; [|done].
    destruct (Hfiles _ Hin) as [data Hdata]. congruence. }
  assert (Hdst : fs1 !! dst ≠ Some Dir).
  { unfold fs1. rewrite lookup_without. case_decide as Hin; [done|].
    intros Hdd. apply Hin. apply outPath_in_matching; [done|].
    fold buf dst. by rewrite Hdd. }
  assert (Hp : os.parent dst = dir) by apply outPath_parent.
  unfold ioutil.WriteFile. rewrite Hp, Hd1.
  by destruct (fs1 !! dst) as [[?|]|].
Qed.

(** Without the output directory nothing is listed, nothing is removed and
    the write fails. *)
Lemma compile_no_dir (fs : gmap string node) (paths contents : list string) :
  reads fs paths contents →
  os.IsDir fs dir = false →
  ∃ eno, compile fs outDir name ext paths
         = (fs, Some (PathError "open"
                        (outPath outDir name (bundle contents) ext) eno)).
Proof.
  intros Hr Hdir. unfold compile, removeGlob.
  rewrite (combine_reads _ "" _ _ Hr), append_nil_l.
  fold glob. unfold glob. rewrite Glob_pattern by done. fold dir pat.
  unfold matching. rewrite Hdir. cbn [remove_all].
  unfold ioutil.WriteFile. rewrite outPath_parent. fold dir.
  unfold os.IsDir in Hdir.
  destruct (fs !! outPath outDir name (bundle contents) ext) as [[?|]|];
    destruct (fs !! dir) as [[?|]|]; try done; by eexists.
Qed.

(** After a successful [compile] the lookup of the name finds the file just
    written. *)
Lemma compile_then_findFile (fs fs' : gmap string node)
    (paths contents : list string) (abs : bool) :
  reads fs paths contents →
  compile fs outDir name ext paths = (fs', None) →
  findFile fs' outDir name ext abs
  = (if abs then
       filepath.Join ["/"; outPath outDir name (bundle contents) ext]
     else outPath outDir name (bundle contents) ext, None).
Proof.
  intros Hr Hc. apply findFile_one.
  rewrite Glob_pattern by done.
  by rewrite (compile_matching _ _ _ outDir_plain name_plain ext_plain
                ext_nosep _ _ _ _ Hr Hc).
Qed.

Lemma compile_then_inline (fs fs' : gmap string node)
    (paths contents : list string) :
  reads fs paths contents →
  compile fs outDir name ext paths = (fs', None) →
  inline fs' outDir name ext
  = if strings.HasSuffix ext "css" then
      ("<style>" +:+ bundle contents +:+ "</style>", None)
    else if strings.HasSuffix ext "js" then
      ("<script>" +:+ bundle contents +:+ "</script>", None)
    else ("", Some (fmt.Errorf "No inline template for ext %s" [ext])).
Proof.
  intros Hr Hc.
  apply (inline_one _ _ _ _ (outPath outDir name (bundle contents) ext)).
  - rewrite Glob_pattern by done.
    by rewrite (compile_matching _ _ _ outDir_plain name_plain ext_plain
                  ext_nosep _ _ _ _ Hr Hc).
  - unfold ioutil.ReadFile. by rewrite (compile_writes _ _ _ _ _ _ _ Hr Hc).
Qed.

(** Compiling again over the result, with the sources unchanged, rewrites
    the same file. *)
Lemma compile_again (fs fs' : gmap string node)
    (paths contents : list string) :
  reads fs paths contents →
  compile fs outDir name ext paths = (fs', None) →
  reads fs' paths contents →
  compile fs' outDir name ext paths = (fs', None).
Proof.
  intros Hr Hc Hr'.
  destruct (compile_glob _ _ _ outDir_plain name_plain ext_plain ext_nosep
              _ _ _ Hc) as (c & _ & _ & Hdir' & _ & _).
  pose proof (compile_matching _ _ _ outDir_plain name_plain ext_plain
                ext_nosep _ _ _ _ Hr Hc) as HM.
  pose proof (compile_writes _ _ _ _ _ _ _ Hr Hc) as Hw.
  fold dir pat in Hdir', HM.
  rewrite (compile_total fs' paths contents Hr' Hdir').
  - rewrite HM. unfold without. cbn [foldl].
    by rewrite insert_delete_eq, insert_id.
  - rewrite HM. intros f ->%list_elem_of_singleton. by eexists.
Qed.

End outcomes.



(** X8. Under the same conditions on the names, compiling twice with
    the same inputs is the same as compiling once: when a [compile] has
    succeeded and the sources still read the same afterwards, a second
    [compile] succeeds and leaves the disk exactly as the first did, with
    the same single file under the same name. *)
Theorem compile_idempotent (fs fs' : gmap string node)
    (outDir name ext : string) (paths contents : list string) :
  nometa outDir → nometa name → nometa ext → nosep ext →
  reads fs paths contents →
  compile fs outDir name ext paths = (fs', None) →
  reads fs' paths contents →
  compile fs' outDir name ext paths = (fs', None).
Proof.
  intros Ho Hn He Hs Hr Hc Hr'.
  exact (compile_again _ _ _ Ho Hn He Hs _ _ _ _ Hr Hc Hr').
Qed.

Lemma compile_idempotent_witness :
  let fs' := (compile fs_stale "out" "app" ".min.css" ["a.css"]).1 in
  compile fs_stale "out" "app" ".min.css" ["a.css"] = (fs', None)
  ∧ compile fs' "out" "app" ".min.css" ["a.css"] = (fs', None).
Proof.
  cbv zeta.
  set (fs' := (compile fs_stale "out" "app" ".min.css" ["a.css"]).1).
  assert (Hc : compile fs_stale "out" "app" ".min.css" ["a.css"]
               = (fs', None)) by (vm_compute; reflexivity).
  assert (Hr : reads fs_stale ["a.css"] [css_a]) by (by repeat constructor).
  assert (Hr' : reads fs' ["a.css"] [css_a]).
  { constructor; [vm_compute; reflexivity|constructor]. }
  split; [exact Hc|].
  exact (compile_idempotent fs_stale fs' "out" "app" ".min.css" ["a.css"]
           [css_a] eq_refl eq_refl eq_refl eq_refl Hr Hc Hr').
Defined.

(** X9. Under the same conditions on the names, if the sources can be read
    but the directory of the output path is not an existing directory, then
    [compile] fails with the error of opening the output path, and the disk
    is as before: nothing was found to delete and nothing is written; the
    directory is not created. *)
Theorem compile_missing_directory (fs : gmap string node)
    (outDir name ext : string) (paths contents : list string) :
  nometa outDir → nometa name → nometa ext → nosep ext →
  reads fs paths contents →
  let dst := outPath outDir name (bundle contents) ext in
  os.IsDir fs (os.parent dst) = false →
  ∃ eno, compile fs outDir name ext paths
         = (fs, Some (PathError "open" dst eno)).
Proof.
  intros Ho Hn He Hs Hr dst Hdir.
  unfold dst in Hdir. rewrite outPath_parent in Hdir by done.
  by apply compile_no_dir.
Qed.

Lemma compile_missing_directory_witness :
  os.IsDir fs_src "nowhere" = false
  ∧ ∃ eno,
      compile fs_src "nowhere" "app" ".min.css" ["a.css"]
      = (fs_src,
         Some (PathError "open"
                 "nowhere/__app-152c5c5878da1b65c0ce9cdfee79ccd0.min.css"
                 eno)).
Proof.
  assert (Hr : reads fs_src ["a.css"] [css_a]) by (by repeat constructor).
  assert (Hp : outPath "nowhere" "app" (bundle [css_a]) ".min.css"
               = "nowhere/__app-152c5c5878da1b65c0ce9cdfee79ccd0.min.css")
    by (vm_compute; reflexivity).
  split; [reflexivity|].
  destruct (compile_missing_directory fs_src "nowhere" "app" ".min.css"
              ["a.css"] [css_a] eq_refl eq_refl eq_refl eq_refl Hr)
    as [eno Hc].
  - vm_compute. reflexivity.
  - cbv zeta in Hc. rewrite Hp in Hc. by exists eno.
Defined.

(** ** Compile, then resolve *)

(** X10. After a successful [ImgCompile] of a readable file, on names
    without the bytes [*], [?], [[] and backslash and an extension without
    separator, [ImgPath] for the same directory, name and extension returns
    the root-joined path of the file just written. *)
Theorem ImgCompile_then_ImgPath (fs fs' : gmap string node)
    (outDir name ext path data : string) :
  nometa outDir → nometa name → nometa ext → nosep ext →
  ioutil.ReadFile fs path = (data, None) →
  ImgCompile fs outDir name ext path = (fs', None) →
  ImgPath fs' outDir name ext
  = (filepath.Join ["/"; outPath outDir name (data +:+ lf +:+ lf) ext], None).
Proof.
  intros Ho Hn He Hs Hp Hc. unfold ImgCompile in Hc. unfold ImgPath.
  assert (Hr : reads fs [path] [data]) by (by repeat constructor).
  rewrite (compile_then_findFile _ _ _ Ho Hn He Hs _ _ _ _ true Hr Hc).
  simpl. by rewrite append_nil_r.
Qed.

Lemma ImgCompile_then_ImgPath_witness :
  let fs' := (ImgCompile fs_src "out" "logo" ".png" "logo.png").1 in
  ImgCompile fs_src "out" "logo" ".png" "logo.png" = (fs', None)
  ∧ ImgPath fs' "out" "logo" ".png"
    = ("/out/__logo-be82b954705846d07a1cb298b3eff3be.png", None).
Proof.
  cbv zeta.
  set (fs' := (ImgCompile fs_src "out" "logo" ".png" "logo.png").1).
  assert (Hc : ImgCompile fs_src "out" "logo" ".png" "logo.png"
               = (fs', None)) by (vm_compute; reflexivity).
  split; [exact Hc|].
  rewrite (ImgCompile_then_ImgPath fs_src fs' "out" "logo" ".png"
             "logo.png" "PNG" eq_refl eq_refl eq_refl eq_refl eq_refl Hc).
  vm_compute. reflexivity.
Defined.

(** X11. After a successful [CSSCompile] on a directory and a name without
    the bytes [*], [?], [[] and backslash, [CSSTag] returns the [link]
    element whose [href] is the root-joined path of the bundle just written;
    after a successful [JSCompile], [JSTag] returns the [script] element
    whose [src] is that of the script bundle. *)
Theorem compile_then_tag (fs fs' : gmap string node)
    (outDir name : string) (paths contents : list string) :
  nometa outDir → nometa name →
  reads fs paths contents →
  (CSSCompile fs outDir name paths = (fs', None) →
   CSSTag fs' outDir name
   = ("<link href=" +:+ dq
      +:+ filepath.Join
            ["/"; outPath outDir name (bundle contents) ".min.css"]
      +:+ dq +:+ " rel=" +:+ dq +:+ "stylesheet" +:+ dq +:+ " type=" +:+ dq
      +:+ "text/css" +:+ dq +:+ " />", None))
  ∧ (JSCompile fs outDir name paths = (fs', None) →
     JSTag fs' outDir name
     = ("<script src=" +:+ dq
        +:+ filepath.Join
              ["/"; outPath outDir name (bundle contents) ".min.js"]
        +:+ dq +:+ " type=" +:+ dq +:+ "text/javascript" +:+ dq
        +:+ " ></script>", None)).
Proof.
  intros Ho Hn Hr. split; intros Hc.
  - unfold CSSCompile in Hc. unfold CSSTag, tag.
    rewrite (compile_then_findFile outDir name ".min.css" Ho Hn eq_refl
               eq_refl _ _ _ _ true Hr Hc).
    change (strings.HasSuffix ".min.css" "css") with true. cbv iota.
    by rewrite Sprintf_cssTag.
  - unfold JSCompile in Hc. unfold JSTag, tag.
    rewrite (compile_then_findFile outDir name ".min.js" Ho Hn eq_refl
               eq_refl _ _ _ _ true Hr Hc).
    change (strings.HasSuffix ".min.js" "css") with false.
    change (strings.HasSuffix ".min.js" "js") with true. cbv iota.
    by rewrite Sprintf_jsTag.
Qed.

Lemma compile_then_tag_witness :
  let fs' := (JSCompile fs_src "out" "app" ["a.css"]).1 in
  JSCompile fs_src "out" "app" ["a.css"] = (fs', None)
  ∧ JSTag fs' "out" "app"
    = ("<script src=" +:+ dq
       +:+ "/out/__app-152c5c5878da1b65c0ce9cdfee79ccd0.min.js"
       +:+ dq +:+ " type=" +:+ dq +:+ "text/javascript" +:+ dq
       +:+ " ></script>", None).
Proof.
  cbv zeta. set (fs' := (JSCompile fs_src "out" "app" ["a.css"]).1).
  assert (Hc : JSCompile fs_src "out" "app" ["a.css"] = (fs', None))
    by (vm_compute; reflexivity).
  assert (Hr : reads fs_src ["a.css"] [css_a]) by (by repeat constructor).
  split; [exact Hc|].
  rewrite (proj2 (compile_then_tag fs_src fs' "out" "app" ["a.css"] [css_a]
                    eq_refl eq_refl Hr) Hc).
  vm_compute. reflexivity.
Defined.

(** X12. After a successful [CSSCompile] on a directory and a name without
    the bytes [*], [?], [[] and backslash, [CSSInline] returns the bundle,
    each source followed by two line feeds, between [<style>] and
    [</style>]; after a successful [JSCompile], [JSInline] returns it
    between [<script>] and [</script>]. *)
Theorem compile_then_inline_bundle (fs fs' : gmap string node)
    (outDir name : string) (paths contents : list string) :
  nometa outDir → nometa name →
  reads fs paths contents →
  (CSSCompile fs outDir name paths = (fs', None) →
   CSSInline fs' outDir name
   = ("<style>" +:+ bundle contents +:+ "</style>", None))
  ∧ (JSCompile fs outDir name paths = (fs', None) →
     JSInline fs' outDir name
     = ("<script>" +:+ bundle contents +:+ "</script>", None)).
Proof.
  intros Ho Hn Hr. split; intros Hc.
  - unfold CSSCompile in Hc. unfold CSSInline.
    by rewrite (compile_then_inline outDir name ".min.css" Ho Hn eq_refl
                  eq_refl _ _ _ _ Hr Hc).
  - unfold JSCompile in Hc. unfold JSInline.
    by rewrite (compile_then_inline outDir name ".min.js" Ho Hn eq_refl
                  eq_refl _ _ _ _ Hr Hc).
Qed.

Lemma compile_then_inline_bundle_witness :
  let fs' := (CSSCompile fs_stale "out" "app" ["a.css"; "b.css"]).1 in
  CSSCompile fs_stale "out" "app" ["a.css"; "b.css"] = (fs', None)
  ∧ CSSInline fs' "out" "app"
    = ("<style>" +:+ css_a +:+ lf +:+ lf +:+ css_b +:+ lf +:+ lf
       +:+ "</style>", None).
Proof.
  cbv zeta.
  set (fs' := (CSSCompile fs_stale "out" "app" ["a.css"; "b.css"]).1).
  assert (Hc : CSSCompile fs_stale "out" "app" ["a.css"; "b.css"]
               = (fs', None)) by (vm_compute; reflexivity).
  assert (Hr : reads fs_stale ["a.css"; "b.css"] [css_a; css_b])
    by (by repeat constructor).
  split; [exact Hc|].
  rewrite (proj1 (compile_then_inline_bundle fs_stale fs' "out" "app"
                    ["a.css"; "b.css"] [css_a; css_b] eq_refl eq_refl Hr)
             Hc).
  vm_compute. reflexivity.
Defined.

(** ** Bundles that do not disturb one another *)

Lemma append_tail_eq (a b x y : string) :
  String.length x = String.length y → a +:+ x = b +:+ y → x = y.
Proof.
  intros Hlen. revert b. induction a as [|c a IH]; intros [|c' b] H.
  - done.
  - apply (f_equal String.length) in H.
    rewrite append_nil_l, length_append in H. simpl in H. lia.
  - apply (f_equal String.length) in H.
    rewrite append_nil_l, length_append in H. simpl in H. lia.
  - rewrite !append_cons in H. injection H as _ H. by apply (IH b).
Qed.

Lemma append_eq_append (a b x y : string) :
  a +:+ x = b +:+ y →
  (∃ c, b = a +:+ c ∧ x = c +:+ y) ∨ (∃ c, a = b +:+ c ∧ y = c +:+ x).
Proof.
  revert b. induction a as [|c a IH]; intros b H.
  - left. exists b. by rewrite !append_nil_l in *.
  - destruct b as [|c' b].
    + right. exists (String c a). by rewrite append_nil_l in *.
    + rewrite !append_cons in H. injection H as -> H.
      destruct (IH b H) as [(d & -> & ->)|(d & -> & ->)];
        [left|right]; by exists d.
Qed.

(** A fingerprinted name of [n2] is not of the form [__<n1>-<mid><ext>]
    unless [n2] is [n1] or extends it by a dash. *)
Lemma stems_apart (n1 n2 h mid ext : string) :
  n1 ≠ n2 → (∀ s, n2 ≠ n1 +:+ "-" +:+ s) → lacks "-" h →
  ("__" +:+ n2 +:+ "-") +:+ h +:+ ext ≠ ("__" +:+ n1 +:+ "-") +:+ mid +:+ ext.
Proof.
  intros Hne Hext Hh H.
  rewrite <- !append_assoc in H. apply append_inv_tail in H.
  rewrite !append_assoc in H. apply (inj (String.append "__")) in H.
  apply (append_eq_append n2 n1) in H as [(c & -> & Hc)|(c & -> & Hc)].
  - destruct c as [|a c]; [by rewrite append_nil_r in Hne|].
    rewrite append_cons in Hc.
    change ("-" +:+ h) with (String "-" h) in Hc. injection Hc as <- Hc.
    by apply (no_dash_extension h c mid).
  - destruct c as [|a c]; [by rewrite append_nil_r in Hne|].
    rewrite append_cons in Hc.
    change ("-" +:+ mid) with (String "-" mid) in Hc. injection Hc as <- Hc.
    by apply (Hext c).
Qed.

Lemma glob_plain_name (outDir n : string) :
  nosep n →
  glob_dir outDir n = glob_dir outDir "" ∧ glob_stem n = "__" +:+ n +:+ "-".
Proof.
  intros Hn. unfold glob_dir, glob_stem.
  assert (HS : filepath.Split ("__" +:+ n) = ("", "__" +:+ n)).
  { apply Split_nosep. apply lacks_append. by split. }
  rewrite HS. split; [done|]. simpl. by rewrite append_assoc.
Qed.

(** X13. Names that do not extend one another are isolated. Let the
    directory, two names and the extension have none of the bytes [*], [?],
    [[] and backslash, and the names and the extension no separator. If
    [n2] is neither [n1] nor [n1] followed by a dash and more, then a
    successful [compile] of [n1] leaves every bundle path of [n2] as it was:
    it neither deletes nor overwrites it. *)
Theorem names_isolated (fs fs' : gmap string node)
    (outDir n1 n2 ext : string) (paths : list string) (buf : string) :
  nometa outDir → nometa n1 → nometa n2 → nometa ext →
  nosep n1 → nosep n2 → nosep ext →
  n1 ≠ n2 → (∀ s, n2 ≠ n1 +:+ "-" +:+ s) →
  compile fs outDir n1 ext paths = (fs', None) →
  fs' !! outPath outDir n2 buf ext = fs !! outPath outDir n2 buf ext.
Proof.
  intros Ho H1 H2 He Hs1 Hs2 Hse Hne Hext Hc.
  destruct (compile_glob _ _ _ Ho H1 He Hse _ _ _ Hc)
    as (c1 & _ & _ & _ & _ & ->). cbv zeta.
  destruct (glob_plain_name outDir n1 Hs1) as [Hd1 Hst1].
  destruct (glob_plain_name outDir n2 Hs2) as [Hd2 Hst2].
  rewrite (outPath_eq outDir n2) by done.
  rewrite (outPath_eq outDir n1) by done.
  rewrite Hd1, Hd2, Hst1, Hst2.
  rewrite lookup_insert_ne.
  2:{ intros H. apply (inj (String.append _)) in H. symmetry in H.
      by apply stems_apart in H; [|done|done|apply hash_no_dash]. }
  rewrite lookup_without. case_decide as Hin; [exfalso|done].
  rewrite <- Hd1 in Hin.
  apply elem_of_matching in Hin as (_ & _ & _ & HM).
  destruct (stem_entry outDir n2 ext H2 He Hse (hash buf) (hash_nosep buf))
    as (Hb & _).
  cbv zeta in Hb. rewrite Hd2, Hst2 in Hb. rewrite Hd1, Hb in HM.
  assert (HM' : ∃ e, filepath.Match (("__" +:+ n1 +:+ "-") +:+ "*" +:+ ext)
                       (("__" +:+ n2 +:+ "-") +:+ hash buf +:+ ext)
                     = (true, e)).
  { destruct (filepath.Match _ _) as [b e]. simpl in HM. subst b.
    by exists e. }
  destruct HM' as [e HM'].
  apply Match_star_sound in HM' as (mid & Heq & _).
  - by apply stems_apart in Heq; [|done|done|apply hash_no_dash].
  - rewrite <- Hst1. by apply glob_stem_nometa.
  - done.
  - done.
Qed.

Lemma names_isolated_witness :
  let f2 := "out/__vendor-152c5c5878da1b65c0ce9cdfee79ccd0.min.css" in
  let fs1 := (compile fs_src "out" "vendor" ".min.css" ["a.css"]).1 in
  let fs2 := (compile fs1 "out" "app" ".min.css" ["b.css"]).1 in
  compile fs1 "out" "app" ".min.css" ["b.css"] = (fs2, None)
  ∧ fs1 !! f2 = Some (File (css_a +:+ lf +:+ lf))
  ∧ fs2 !! f2 = Some (File (css_a +:+ lf +:+ lf)).
Proof.
  cbv zeta.
  set (fs1 := (compile fs_src "out" "vendor" ".min.css" ["a.css"]).1).
  set (fs2 := (compile fs1 "out" "app" ".min.css" ["b.css"]).1).
  assert (Hc : compile fs1 "out" "app" ".min.css" ["b.css"] = (fs2, None))
    by (vm_compute; reflexivity).
  assert (Hf : fs1 !! "out/__vendor-152c5c5878da1b65c0ce9cdfee79ccd0.min.css"
               = Some (File (css_a +:+ lf +:+ lf)))
    by (vm_compute; reflexivity).
  assert (Hp : outPath "out" "vendor" (css_a +:+ lf +:+ lf) ".min.css"
               = "out/__vendor-152c5c5878da1b65c0ce9cdfee79ccd0.min.css")
    by (vm_compute; reflexivity).
  split; [exact Hc|]. split; [exact Hf|].
  rewrite <- Hf, <- Hp.
  apply (names_isolated fs1 fs2 "out" "app" "vendor" ".min.css" ["b.css"]);
    try reflexivity; try exact Hc.
  - discriminate.
  - intros s. discriminate.
Defined.

(** ** Style and script bundles of one name *)

Lemma css_js_apart (a b : string) :
  a +:+ ".min.css" ≠ b +:+ ".min.js" ∧ a +:+ ".min.js" ≠ b +:+ ".min.css".
Proof.
  split; intros H.
  - change (a +:+ ".min.css") with (a +:+ "." +:+ "min.css") in H.
    rewrite <- append_assoc in H. by apply append_tail_eq in H.
  - symmetry in H.
    change (b +:+ ".min.css") with (b +:+ "." +:+ "min.css") in H.
    rewrite <- append_assoc in H. by apply append_tail_eq in H.
Qed.

Section kinds.
Variables (outDir name e1 e2 : string).
Hypothesis outDir_plain : nometa outDir.
Hypothesis name_plain : nometa name.
Hypothesis e1_plain : nometa e1.
Hypothesis e1_nosep : nosep e1.
Hypothesis e2_plain : nometa e2.
Hypothesis e2_nosep : nosep e2.
Hypothesis apart : ∀ a b, a +:+ e1 ≠ b +:+ e2.

(** A bundle with extension [e2] is out of reach of a compile with
    extension [e1] when no string ends in both. *)
Lemma compile_other_ext (fs fs' : gmap string node) (paths : list string)
    (buf : string) :
  compile fs outDir name e1 paths = (fs', None) →
  fs' !! outPath outDir name buf e2 = fs !! outPath outDir name buf e2.
Proof.
  intros Hc.
  destruct (compile_glob _ _ _ outDir_plain name_plain e1_plain e1_nosep
              _ _ _ Hc) as (c1 & _ & _ & _ & _ & ->). cbv zeta.
  rewrite (outPath_eq outDir name buf e2) by done.
  rewrite (outPath_eq outDir name _ e1) by done.
  rewrite lookup_insert_ne.
  2:{ rewrite <- !append_assoc. apply apart. }
  rewrite lookup_without. case_decide as Hin; [exfalso|done].
  apply elem_of_matching in Hin as (_ & _ & _ & HM).
  destruct (stem_entry outDir name e2 name_plain e2_plain e2_nosep (hash buf)
              (hash_nosep buf)) as (Hb & _).
  cbv zeta in Hb. rewrite Hb in HM.
  assert (HM' : ∃ e, filepath.Match (glob_stem name +:+ "*" +:+ e1)
                       (glob_stem name +:+ hash buf +:+ e2) = (true, e)).
  { destruct (filepath.Match _ _) as [b e]. simpl in HM. subst b.
    by exists e. }
  destruct HM' as [e HM'].
  apply Match_star_sound in HM' as (mid & Heq & _).
  - rewrite <- !append_assoc in Heq. symmetry in Heq. by apply apart in Heq.
  - by apply glob_stem_nometa.
  - apply glob_stem_nonempty.
  - done.
Qed.

End kinds.

(** X14. The style and the script bundle of one name do not disturb one
    another. On a directory and a name without the bytes [*], [?], [[] and
    backslash, a successful [JSCompile] leaves every [.min.css] bundle path
    of the name as it was, and a successful [CSSCompile] every [.min.js]
    bundle path. *)
Theorem css_js_independent (fs fs' : gmap string node)
    (outDir name : string) (paths : list string) (buf : string) :
  nometa outDir → nometa name →
  (JSCompile fs outDir name paths = (fs', None) →
   fs' !! outPath outDir name buf ".min.css"
   = fs !! outPath outDir name buf ".min.css")
  ∧ (CSSCompile fs outDir name paths = (fs', None) →
     fs' !! outPath outDir name buf ".min.js"
     = fs !! outPath outDir name buf ".min.js").
Proof.
  intros Ho Hn. split; intros Hc.
  - apply (compile_other_ext outDir name ".min.js" ".min.css" Ho Hn
             eq_refl eq_refl eq_refl eq_refl) with paths; [|exact Hc].
    intros a b. apply css_js_apart.
  - apply (compile_other_ext outDir name ".min.css" ".min.js" Ho Hn
             eq_refl eq_refl eq_refl eq_refl) with paths; [|exact Hc].
    intros a b. apply css_js_apart.
Qed.

Lemma css_js_independent_witness :
  let f1 := "out/__app-152c5c5878da1b65c0ce9cdfee79ccd0.min.css" in
  let fs1 := (CSSCompile fs_src "out" "app" ["a.css"]).1 in
  let fs2 := (JSCompile fs1 "out" "app" ["b.css"]).1 in
  JSCompile fs1 "out" "app" ["b.css"] = (fs2, None)
  ∧ fs1 !! f1 = Some (File (css_a +:+ lf +:+ lf))
  ∧ fs2 !! f1 = Some (File (css_a +:+ lf +:+ lf)).
Proof.
  cbv zeta.
  set (fs1 := (CSSCompile fs_src "out" "app" ["a.css"]).1).
  set (fs2 := (JSCompile fs1 "out" "app" ["b.css"]).1).
  assert (Hc : JSCompile fs1 "out" "app" ["b.css"] = (fs2, None))
    by (vm_compute; reflexivity).
  assert (Hf : fs1 !! "out/__app-152c5c5878da1b65c0ce9cdfee79ccd0.min.css"
               = Some (File (css_a +:+ lf +:+ lf)))
    by (vm_compute; reflexivity).
  assert (Hp : outPath "out" "app" (css_a +:+ lf +:+ lf) ".min.css"
               = "out/__app-152c5c5878da1b65c0ce9cdfee79ccd0.min.css")
    by (vm_compute; reflexivity).
  split; [exact Hc|]. split; [exact Hf|].
  rewrite <- Hf, <- Hp.
  exact (proj1 (css_js_independent fs1 fs2 "out" "app" ["b.css"]
                  (css_a +:+ lf +:+ lf) eq_refl eq_refl) Hc).
Defined.
